(** * The account ledger of the banking demo: a shallow embedding

    The development follows [src/server/routers/account.ts] (the tRPC
    procedures [createAccount], [fundAccount] and [getTransactions]) over the
    tables declared in [src/lib/db/schema.ts].

    - Monetary columns are SQLite [REAL] and JavaScript [number]: IEEE-754
      binary64.  They are modelled by Rocq's primitive [float], whose
      operations are the binary64 ones.
    - Text columns are [string]; a nullable column is an [option].
    - The [accounts] table is a finite map from the primary key [id] to the
      remaining columns; the [transactions] table is the list of its rows in
      rowid (insertion) order.
    - What a handler reads from its environment (the SQL [CURRENT_TIMESTAMP],
      [new Date().toISOString()], the values drawn by [crypto.randomInt]) is an
      explicit argument.
    - A handler is a function from the database to an outcome and the next
      database.  The [while] loop of [createAccount] is run on a fuel, [None]
      meaning that it is still running when the fuel is spent.
    - Calls in flight interleave at the [await] of a handler: [fundAccount] is
      two steps, the [select] and what follows it, and a schedule says which
      call takes its next step. *)

From Stdlib Require Import ZArith Floats String List Permutation Sorted Lia.
From stdpp Require Import gmap strings list fin_maps pretty.

Set Warnings "-inexact-float,-clear-no-such-hyp".
Local Open Scope Z_scope.
Local Open Scope string_scope.
Local Open Scope list_scope.

(** ** Schema ([src/lib/db/schema.ts]) *)

(** A row of [accounts] without its primary key [id], which is the key of the
    map holding the table. *)
Module Account.
Record t := mk {
  userId : Z;
  accountNumber : string;
  accountType : string;           (* "checking", "savings" *)
  balance : float;                (* real("balance").default(0).notNull() *)
  status : option string;         (* text("status").default("pending") *)
  createdAt : option string;
}.
End Account.

Module Transaction.
Record t := mk {
  id : Z;
  accountId : Z;
  type : string;                  (* "deposit", "withdrawal" *)
  amount : float;                 (* real("amount").notNull() *)
  description : option string;
  status : string;                (* text("status").default("pending").notNull() *)
  createdAt : option string;      (* default CURRENT_TIMESTAMP *)
  processedAt : option string;
}.
End Transaction.

Record DB := mkDB {
  accounts : gmap Z Account.t;
  transactions : list Transaction.t;
}.

Definition empty_db : DB := {| accounts := ∅; transactions := [] |}.

(** [integer("id").primaryKey({ autoIncrement: true })]: the rowid given to an
    inserted row is one more than the largest rowid of the table (the routers
    never delete a row, so this is also the largest rowid ever used). *)
Definition max_account_id (m : gmap Z Account.t) : Z :=
  map_fold (fun k _ acc => Z.max k acc) 0 m.

Definition max_transaction_id (l : list Transaction.t) : Z :=
  foldr (fun t acc => Z.max (Transaction.id t) acc) 0 l.

Definition next_account_id (db : DB) : Z := 1 + max_account_id (accounts db).
Definition next_transaction_id (db : DB) : Z := 1 + max_transaction_id (transactions db).

(** ** Errors and outcomes *)

Inductive TRPC_ERROR_CODE := NOT_FOUND | BAD_REQUEST | CONFLICT | INTERNAL_SERVER_ERROR.

Record TRPCError := mkError { code : TRPC_ERROR_CODE; message : string }.

Inductive outcome (A : Type) : Type :=
| Return (a : A)
| Throw (e : TRPCError).
Arguments Return {A} a.
Arguments Throw {A} e.

(** The errors the handlers throw, under the names the specification gives
    them. *)
Definition NotFound : TRPCError :=
  {| code := NOT_FOUND; message := "Account not found" |}.
Definition InactiveAccount : TRPCError :=
  {| code := BAD_REQUEST; message := "Account is not active" |}.
Definition Conflict (accountType : string) : TRPCError :=
  {| code := CONFLICT; message := "You already have a " +:+ accountType +:+ " account" |}.
(** [updatedAccount.balance] on an [undefined] row: a [TypeError], which tRPC
    reports as an internal error. *)
Definition UndefinedBalance : TRPCError :=
  {| code := INTERNAL_SERVER_ERROR;
     message := "Cannot read properties of undefined (reading 'balance')" |}.

(** ** Inputs *)

Inductive AccountType := checking | savings.   (* z.enum(["checking", "savings"]) *)

Definition accountType_text (t : AccountType) : string :=
  match t with checking => "checking" | savings => "savings" end.

Inductive FundingSourceType := card | bank.     (* z.enum(["card", "bank"]) *)

Definition fundingSourceType_text (t : FundingSourceType) : string :=
  match t with card => "card" | bank => "bank" end.

Module FundingSource.
Record t := mk {
  type : FundingSourceType;
  accountNumber : string;
  routingNumber : option string;
}.
End FundingSource.

Module FundInput.
Record t := mk {
  accountId : Z;
  amount : float;
  fundingSource : FundingSource.t;
}.
End FundInput.


(** The two clock readings of a funding call: the column default
    [CURRENT_TIMESTAMP] of [created_at] and [new Date().toISOString()]. *)
Record Clock := mkClock { CURRENT_TIMESTAMP : string; toISOString : string }.

(** ** Queries shared by the handlers *)

(** [db.select().from(accounts).where(and(eq(accounts.id, accountId),
    eq(accounts.userId, ctx.user.id))).get()] *)
Definition select_owned_account (db : DB) (accountId user : Z) : option Account.t :=
  match accounts db !! accountId with
  | Some a => if decide (Account.userId a = user) then Some a else None
  | None => None
  end.

(** ** [fundAccount] *)

(** [parseFloat(input.amount.toString())]: a [number] printed by [toString] and
    read back is the same [number]. *)
Definition parseFloat_toString (x : float) : float := x.

Record FundResult := mkFundResult {
  transaction : Transaction.t;
  newBalance : float;
}.

(** [tx.insert(transactions).values({...}).returning().all()] *)
Definition deposit_row (clk : Clock) (input : FundInput.t) (amount : float) (db : DB)
  : Transaction.t :=
  {| Transaction.id := next_transaction_id db;
     Transaction.accountId := FundInput.accountId input;
     Transaction.type := "deposit";
     Transaction.amount := amount;
     Transaction.description :=
       Some ("Funding from " +:+
             fundingSourceType_text (FundingSource.type (FundInput.fundingSource input)));
     Transaction.status := "completed";
     Transaction.createdAt := Some (CURRENT_TIMESTAMP clk);
     Transaction.processedAt := Some (toISOString clk) |}.

Definition insert_deposit (clk : Clock) (input : FundInput.t) (amount : float) (db : DB)
  : Transaction.t * DB :=
  let row := deposit_row clk input amount db in
  (row, {| accounts := accounts db; transactions := transactions db ++ [row] |}).

Definition add_balance (amount : float) (a : Account.t) : Account.t :=
  {| Account.userId := Account.userId a;
     Account.accountNumber := Account.accountNumber a;
     Account.accountType := Account.accountType a;
     Account.balance := (Account.balance a + amount)%float;
     Account.status := Account.status a;
     Account.createdAt := Account.createdAt a |}.

(** [tx.update(accounts).set({ balance: sql`${accounts.balance} + ${amount}` })
    .where(eq(accounts.id, accountId)).returning().all()]: the updated row,
    if there is one. *)
Definition update_balance (accountId : Z) (amount : float) (db : DB)
  : option Account.t * DB :=
  match accounts db !! accountId with
  | Some a =>
      let a' := add_balance amount a in
      (Some a', {| accounts := <[accountId := a']> (accounts db);
                   transactions := transactions db |})
  | None => (None, db)
  end.

(** [db.transaction((tx) => ...)]: the writes of a body that throws are rolled
    back. *)
Definition db_transaction {A} (body : DB -> outcome A * DB) (db : DB) : outcome A * DB :=
  match body db with
  | (Return r, db') => (Return r, db')
  | (Throw e, _) => (Throw e, db)
  end.

(** The handler has one [await], on the [select]: what precedes it,
    [fund_select], and what follows it, [fund_commit], each run without
    interruption. *)
Definition fund_select (user : Z) (input : FundInput.t) (db : DB) : option Account.t :=
  select_owned_account db (FundInput.accountId input) user.

Definition fund_commit (clk : Clock) (input : FundInput.t) (account : option Account.t)
    (db : DB) : outcome FundResult * DB :=
  let amount := parseFloat_toString (FundInput.amount input) in
  match account with
  | None => (Throw NotFound, db)
  | Some account =>
      if decide (Account.status account = Some "active") then
        db_transaction (fun tx =>
          let '(transaction, tx) := insert_deposit clk input amount tx in
          match update_balance (FundInput.accountId input) amount tx with
          | (Some updatedAccount, tx) =>
              (Return {| transaction := transaction;
                         newBalance := Account.balance updatedAccount |}, tx)
          | (None, tx) => (Throw UndefinedBalance, tx)
          end) db
      else (Throw InactiveAccount, db)
  end.

Definition fundAccount (clk : Clock) (user : Z) (input : FundInput.t) (db : DB)
  : outcome FundResult * DB :=
  fund_commit clk input (fund_select user input db) db.

(** ** [createAccount] *)

(** [crypto.randomInt(min, max)] returns an integer [n] with [min <= n < max];
    it is modelled as a function of the entropy it consumes. *)
Definition randomInt (min max entropy : Z) : Z := min + entropy mod (max - min).

Definition generateAccountNumber (entropy : Z) : string :=
  pretty (randomInt 1000000000 9999999999 entropy).

(** [db.select().from(accounts).where(and(eq(accounts.userId, ctx.user.id),
    eq(accounts.accountType, input.accountType))).get()] is defined. *)
Definition has_account_of_type (db : DB) (user : Z) (accountType : string) : Prop :=
  map_Exists (fun _ a => Account.userId a = user /\ Account.accountType a = accountType)
             (accounts db).

(** [db.select().from(accounts).where(eq(accounts.accountNumber,
    accountNumber)).get()] is defined. *)
Definition account_number_exists (db : DB) (accountNumber : string) : Prop :=
  map_Exists (fun _ a => Account.accountNumber a = accountNumber) (accounts db).

(** [while (!isUnique) { ... }]: [entropy i] feeds the [i]-th call of
    [generateAccountNumber]; [None] when [fuel] iterations did not leave the
    loop. *)
Fixpoint unique_account_number (fuel : nat) (entropy : nat -> Z) (db : DB) : option string :=
  match fuel with
  | O => None
  | S fuel =>
      let accountNumber := generateAccountNumber (entropy O) in
      if decide (account_number_exists db accountNumber)
      then unique_account_number fuel (fun i => entropy (S i)) db
      else Some accountNumber
  end.

Definition new_account (now : string) (user : Z) (accountNumber accountType : string)
  : Account.t :=
  {| Account.userId := user;
     Account.accountNumber := accountNumber;
     Account.accountType := accountType;
     Account.balance := 0%float;
     Account.status := Some "active";
     Account.createdAt := Some now |}.

Definition createAccount (fuel : nat) (entropy : nat -> Z) (now : string) (user : Z)
    (accountType : AccountType) (db : DB) : option (outcome (Z * Account.t) * DB) :=
  if decide (has_account_of_type db user (accountType_text accountType)) then
    Some (Throw (Conflict (accountType_text accountType)), db)
  else
    match unique_account_number fuel entropy db with
    | None => None
    | Some accountNumber =>
        let id := next_account_id db in
        let account := new_account now user accountNumber (accountType_text accountType) in
        Some (Return (id, account),
              {| accounts := <[id := account]> (accounts db);
                 transactions := transactions db |})
    end.

(** The owner holds an account of the type that is not closed. *)
Definition has_open_account_of_type (db : DB) (user : Z) (accountType : string) : Prop :=
  map_Exists (fun _ a => Account.userId a = user /\ Account.accountType a = accountType
                         /\ Account.status a <> Some "closed")
             (accounts db).

(** No owner holds two accounts of one type that are both not closed. *)
Definition no_two_open_accounts (db : DB) : Prop :=
  forall (i j : Z) (a b : Account.t),
    accounts db !! i = Some a -> accounts db !! j = Some b ->
    Account.userId a = Account.userId b ->
    Account.accountType a = Account.accountType b ->
    Account.status a <> Some "closed" -> Account.status b <> Some "closed" ->
    i = j.

(** ** [getTransactions] *)

(** The order of SQLite on a nullable text column: [NULL] first, then text by
    bytes. *)
Definition compare_createdAt (x y : option string) : comparison :=
  match x, y with
  | None, None => Eq
  | None, Some _ => Lt
  | Some _, None => Gt
  | Some s, Some t => String.compare s t
  end.

Definition created_after (x y : Transaction.t) : bool :=
  match compare_createdAt (Transaction.createdAt x) (Transaction.createdAt y) with
  | Gt => true
  | _ => false
  end.

(** [.orderBy(desc(transactions.createdAt))] has no second key.  The rows reach
    the sorter in rowid order and the sorter keeps rows of equal key in the
    order they arrived: an insertion sort that puts a row in front of the
    first row that is not strictly more recent. *)
Fixpoint insert_desc (t : Transaction.t) (l : list Transaction.t) : list Transaction.t :=
  match l with
  | [] => [t]
  | y :: ys => if created_after y t then y :: insert_desc t ys else t :: y :: ys
  end.

Definition orderBy_desc_createdAt (l : list Transaction.t) : list Transaction.t :=
  foldr insert_desc [] l.

(** What the query itself promises of its result, whatever the engine does
    with rows of equal [createdAt]. *)
Definition desc_createdAt (x y : Transaction.t) : Prop := created_after y x = false.

Definition sorted_by_createdAt_desc (rows result : list Transaction.t) : Prop :=
  Permutation rows result /\ Sorted desc_createdAt result.

Module Enriched.
(** [{ ...transaction, accountType: account.accountType }] *)
Record t := mk { transaction : Transaction.t; accountType : string }.
End Enriched.

Definition account_transactions (db : DB) (accountId : Z) : list Transaction.t :=
  filter (fun t => Transaction.accountId t = accountId) (transactions db).

Definition getTransactions (user accountId : Z) (db : DB) : outcome (list Enriched.t) :=
  match select_owned_account db accountId user with
  | None => Throw NotFound
  | Some account =>
      let accountTransactions := orderBy_desc_createdAt (account_transactions db accountId) in
      Return (map (fun transaction =>
                     {| Enriched.transaction := transaction;
                        Enriched.accountType := Account.accountType account |})
                  accountTransactions)
  end.

(** ** Runs of the ledger *)

Inductive Call :=
| CreateAccount (fuel : nat) (entropy : nat -> Z) (now : string) (user : Z)
    (accountType : AccountType)
| FundAccount (clk : Clock) (user : Z) (input : FundInput.t).

(** The database after a call.  A call that throws, or whose loop does not
    end, has written nothing. *)
Definition call (c : Call) (db : DB) : DB :=
  match c with
  | CreateAccount fuel entropy now user accountType =>
      match createAccount fuel entropy now user accountType db with
      | Some (_, db') => db'
      | None => db
      end
  | FundAccount clk user input => snd (fundAccount clk user input db)
  end.

Definition run (calls : list Call) (db : DB) : DB := foldl (fun db c => call c db) db calls.





(** Successive funding calls of one user. *)
Definition fund_all (user : Z) (calls : list (Clock * FundInput.t)) (db : DB) : DB :=
  foldl (fun db c => snd (fundAccount (fst c) user (snd c) db)) db calls.

(** An amount given in minor units (cents), as the [number] a client sends. *)
Definition of_minor_units (cents : Z) : float :=
  (of_uint63 (Uint63.of_Z cents) / 100)%float.

(** ** Funding calls in flight *)
















(** ** Scenarios *)

Module Scenario.
Definition owner : Z := 1.
Definition clk : Clock :=
  {| CURRENT_TIMESTAMP := "2024-05-01 10:00:00"; toISOString := "2024-05-01T10:00:00.000Z" |}.
Definition account100 : Account.t :=
  {| Account.userId := owner; Account.accountNumber := "2001";
     Account.accountType := "checking"; Account.balance := 100%float;
     Account.status := Some "active"; Account.createdAt := Some "2024-05-01 09:00:00" |}.
Definition db100 : DB := {| accounts := {[ 1 := account100 ]}; transactions := [] |}.
Definition fund50 : FundInput.t :=
  {| FundInput.accountId := 1; FundInput.amount := 50%float;
     FundInput.fundingSource :=
       {| FundingSource.type := bank; FundingSource.accountNumber := "123";
          FundingSource.routingNumber := Some "123456789" |} |}.
End Scenario.


(** Two funding calls within one second of the database clock: the two rows
    get the same [createdAt]. *)
Module TieScenario.
Definition db : DB :=
  snd (fundAccount Scenario.clk Scenario.owner Scenario.fund50
         (snd (fundAccount Scenario.clk Scenario.owner Scenario.fund50 Scenario.db100))).
Definition deposit (id : Z) : Transaction.t :=
  {| Transaction.id := id; Transaction.accountId := 1; Transaction.type := "deposit";
     Transaction.amount := 50%float;
     Transaction.description := Some "Funding from bank";
     Transaction.status := "completed";
     Transaction.createdAt := Some "2024-05-01 10:00:00";
     Transaction.processedAt := Some "2024-05-01T10:00:00.000Z" |}.
Definition enriched (t : Transaction.t) : Enriched.t :=
  {| Enriched.transaction := t; Enriched.accountType := "checking" |}.
End TieScenario.

(** The rows of the sorting test of [src/__tests__/integration.test.ts]. *)
Module HistoryScenario.
Definition deposit (id : Z) (amount : float) (createdAt : string) : Transaction.t :=
  {| Transaction.id := id; Transaction.accountId := 1; Transaction.type := "deposit";
     Transaction.amount := amount; Transaction.description := None;
     Transaction.status := "completed"; Transaction.createdAt := Some createdAt;
     Transaction.processedAt := None |}.
Definition t10 := deposit 1 10%float "2023-01-01T10:00:00Z".
Definition t20 := deposit 2 20%float "2023-01-02T10:00:00Z".
Definition t30 := deposit 3 30%float "2023-01-01T09:00:00Z".
Definition db : DB :=
  {| accounts := {[ 1 := Scenario.account100 ]}; transactions := [t10; t20; t30] |}.
End HistoryScenario.

(** An account that was closed. *)
Module InactiveScenario.
Definition closed_account : Account.t :=
  {| Account.userId := 1; Account.accountNumber := "2001";
     Account.accountType := "checking"; Account.balance := 100%float;
     Account.status := Some "closed"; Account.createdAt := Some "2024-05-01 09:00:00" |}.
Definition db : DB := {| accounts := {[ 1 := closed_account ]}; transactions := [] |}.
End InactiveScenario.

(** A store that holds the account numbers 1000000000 and 1000000001. *)
Module CollisionScenario.
Definition account (user : Z) (accountNumber : string) : Account.t :=
  {| Account.userId := user; Account.accountNumber := accountNumber;
     Account.accountType := "checking"; Account.balance := 0%float;
     Account.status := Some "active"; Account.createdAt := Some "2024-05-01 09:00:00" |}.
Definition db : DB :=
  {| accounts := <[1 := account 1 "1000000000"]> (<[2 := account 2 "1000000001"]> ∅);
     transactions := [] |}.
(** Every draw of the generator is 1000000000. *)
Definition stuck : nat -> Z := fun _ => 0.
(** The draws are 1000000000, 1000000001, 1000000002, ... *)
Definition counting : nat -> Z := fun i => Z.of_nat i.
End CollisionScenario.

(** User 1 opens a checking account, funds it with 0.10, then with 0.20. *)
Module LedgerScenario.
Definition fund (amount : float) : FundInput.t :=
  {| FundInput.accountId := 1; FundInput.amount := amount;
     FundInput.fundingSource :=
       {| FundingSource.type := card; FundingSource.accountNumber := "4111111111111111";
          FundingSource.routingNumber := None |} |}.
Definition calls : list Call :=
  [ CreateAccount 1 (fun _ => 0) "2024-05-01 09:00:00" 1 checking;
    FundAccount Scenario.clk 1 (fund (of_minor_units 10));
    FundAccount Scenario.clk 1 (fund (of_minor_units 20)) ].
Definition account : Account.t :=
  {| Account.userId := 1; Account.accountNumber := "1000000000";
     Account.accountType := "checking"; Account.balance := 0.30000000000000004%float;
     Account.status := Some "active"; Account.createdAt := Some "2024-05-01 09:00:00" |}.
End LedgerScenario.

(** Two calls of 50 on the account that holds 100: both select the account
    before either runs its transaction. *)
Module RaceScenario.
End RaceScenario.


From stdpp Require sorting.

(** ** [getAccounts] *)

(** The rows of [accounts] as a scan of the table yields them: in rowid
    order. *)
Definition account_ids (db : DB) : list Z :=
  sorting.merge_sort Z.le (elements (dom (accounts db))).

Definition account_rows (db : DB) : list (Z * Account.t) :=
  omap (fun id => (fun a => (id, a)) <$> accounts db !! id) (account_ids db).

(** [db.select().from(accounts).where(eq(accounts.userId, ctx.user.id))] *)
Definition getAccounts (user : Z) (db : DB) : list (Z * Account.t) :=
  filter (fun row => Account.userId (snd row) = user) (account_rows db).

(** ** What the two mutations keep *)

Definition account_numbers_unique (db : DB) : Prop :=
  forall (i j : Z) (a b : Account.t),
    accounts db !! i = Some a -> accounts db !! j = Some b ->
    Account.accountNumber a = Account.accountNumber b -> i = j.

Definition one_account_per_type (db : DB) : Prop :=
  forall (i j : Z) (a b : Account.t),
    accounts db !! i = Some a -> accounts db !! j = Some b ->
    Account.userId a = Account.userId b ->
    Account.accountType a = Account.accountType b -> i = j.

(** The rowids in use are 1, 2, ..., without a gap. *)
Definition rowids_consecutive (db : DB) : Prop :=
  (forall k : Z, is_Some (accounts db !! k) <-> 1 <= k <= Z.of_nat (size (accounts db)))
  /\ (forall (i : nat) (t : Transaction.t),
        transactions db !! i = Some t -> Transaction.id t = Z.of_nat i + 1).

(** An account as [createAccount] makes it, whatever was deposited since. *)
Definition created_account (a : Account.t) : Prop :=
  Account.status a = Some "active"
  /\ (Account.accountType a = "checking" \/ Account.accountType a = "savings")
  /\ is_Some (Account.createdAt a)
  /\ exists entropy : Z, Account.accountNumber a = generateAccountNumber entropy.

(** A transaction as [fundAccount] records it. *)
Definition funding_record (db : DB) (t : Transaction.t) : Prop :=
  Transaction.type t = "deposit" /\ Transaction.status t = "completed"
  /\ is_Some (accounts db !! Transaction.accountId t)
  /\ (Transaction.description t = Some "Funding from card"
      \/ Transaction.description t = Some "Funding from bank")
  /\ is_Some (Transaction.createdAt t) /\ is_Some (Transaction.processedAt t).

Record store_invariant (db : DB) : Prop := {
  inv_numbers : account_numbers_unique db;
  inv_types : one_account_per_type db;
  inv_rowids : rowids_consecutive db;
  inv_accounts : forall id a, accounts db !! id = Some a -> created_account a;
  inv_records : Forall (funding_record db) (transactions db);
}.

(** Two rows that differ at most in their balance. *)
Definition same_account (a b : Account.t) : Prop :=
  Account.userId a = Account.userId b
  /\ Account.accountNumber a = Account.accountNumber b
  /\ Account.accountType a = Account.accountType b
  /\ Account.status a = Account.status b
  /\ Account.createdAt a = Account.createdAt b.

(** The transactions of a history, without the account type added to each. *)
Definition history (r : outcome (list Enriched.t)) : option (list Transaction.t) :=
  match r with
  | Return l => Some (map Enriched.transaction l)
  | Throw _ => None
  end.

(** * Input validation ([src/lib/validations.ts]) *)

From Stdlib Require Import Ascii.

(** ** The funding source of [fundingSchema] *)

(** A character that [/\D/] does not match: one of "0" ... "9". *)
Definition is_digit (c : Ascii.ascii) : bool :=
  let n := Ascii.N_of_ascii c in ((48 <=? n)%N && (n <=? 57)%N)%bool.

(** [data.accountNumber.replace(/\D/g, "")] *)
Fixpoint sanitize (s : string) : string :=
  match s with
  | EmptyString => EmptyString
  | String c s => if is_digit c then String c (sanitize s) else sanitize s
  end.

(** [parseInt] of a one-character string that holds a digit (the loop below
    reads the characters of [sanitized] only). *)
Definition parseInt (c : Ascii.ascii) : Z := Z.of_N (Ascii.N_of_ascii c) - 48.

(** The body of the [for] loop, on the state [(sum, shouldDouble)]. *)
Definition luhn_step (state : Z * bool) (c : Ascii.ascii) : Z * bool :=
  let '(sum, shouldDouble) := state in
  let digit := parseInt c in
  let digit :=
    if shouldDouble then
      let digit := digit * 2 in
      if (digit >? 9)%Z then digit - 9 else digit
    else digit in
  (sum + digit, negb shouldDouble).

(** [for (let i = sanitized.length - 1; i >= 0; i--) { ... }]: the characters
    from the last to the first. *)
Definition luhn_sum (sanitized : string) : Z :=
  fst (foldl luhn_step (0, false) (reverse (list_ascii_of_string sanitized))).

Definition luhn_valid (accountNumber : string) : bool :=
  (luhn_sum (sanitize accountNumber) mod 10 =? 0)%Z.

Inductive Issue :=
| RoutingNumberRequired   (* "Routing number is required for bank transfers" *)
| InvalidCardNumber.      (* "Invalid card number" *)

(** [!data.routingNumber]: the routing number is absent or empty. *)
Definition falsy (s : option string) : bool :=
  match s with
  | None | Some EmptyString => true
  | Some (String _ _) => false
  end.

(** The [superRefine] of [fundingSource]: the issues it adds. *)
Definition fundingSource_issues (data : FundingSource.t) : list Issue :=
  (match FundingSource.type data with
   | bank => if falsy (FundingSource.routingNumber data) then [RoutingNumberRequired] else []
   | card => []
   end)
  ++
  (match FundingSource.type data with
   | card => if luhn_valid (FundingSource.accountNumber data) then [] else [InvalidCardNumber]
   | bank => []
   end).

(** What a digit adds to the sum, doubled or not, and the sum of a list of
    characters read from its head. *)
Definition luhn_digit (shouldDouble : bool) (c : Ascii.ascii) : Z :=
  if shouldDouble then (if (parseInt c * 2 >? 9)%Z then parseInt c * 2 - 9 else parseInt c * 2)
  else parseInt c.

Fixpoint luhn_weighted (shouldDouble : bool) (l : list Ascii.ascii) : Z :=
  match l with
  | [] => 0
  | c :: l => luhn_digit shouldDouble c + luhn_weighted (negb shouldDouble) l
  end.

(** ** The date of birth of [signupSchema] *)

(** What the refinement reads of a [Date]: [getFullYear()], [getMonth()] and
    [getDate()]. *)
Record JSDate := mkDate { getFullYear : Z; getMonth : Z; getDate : Z }.

(** The refinement of [dateOfBirth]; [date] is [new Date(val)], [None] when
    its time is [NaN], and [today] is [new Date()]. *)
Definition dateOfBirth_refine (today : JSDate) (date : option JSDate) : bool :=
  match date with
  | None => false
  | Some date =>
      let age := getFullYear today - getFullYear date in
      let m := getMonth today - getMonth date in
      let actualAge :=
        if ((m <? 0)%Z || ((m =? 0)%Z && (getDate today <? getDate date)%Z))%bool
        then age - 1 else age in
      (actualAge >=? 18)%Z
  end.

(** The day of the 18th birthday is not after today, in the order of year, month,
    day. *)
Definition eighteen_years_before (date today : JSDate) : Prop :=
  getFullYear date + 18 < getFullYear today
  \/ (getFullYear date + 18 = getFullYear today
      /\ (getMonth date < getMonth today
          \/ (getMonth date = getMonth today /\ getDate date <= getDate today))).

(** * The authentication router ([src/server/routers/auth.ts]) *)

(** The tables [users] and [sessions] of [src/lib/db/schema.ts]. *)
Module User.
Record t := mk {
  id : Z;
  email : string;
  password : string;
  firstName : string;
  lastName : string;
  phoneNumber : string;
  dateOfBirth : string;
  ssn : string;
  address : string;
  city : string;
  state : string;
  zipCode : string;
  createdAt : option string;
}.
End User.

Module Session.
Record t := mk {
  id : Z;
  userId : Z;
  token : string;
  expiresAt : string;
  createdAt : option string;
}.
End Session.

Module Auth.

Inductive ERROR_CODE := CONFLICT | UNAUTHORIZED | TOO_MANY_REQUESTS | INTERNAL_SERVER_ERROR.

Record Error := mkError { code : ERROR_CODE; message : string }.

Inductive outcome (A : Type) : Type :=
| Return (a : A)
| Throw (e : Error).
Arguments Return {A} a.
Arguments Throw {A} e.

Definition UserExists : Error :=
  {| code := CONFLICT; message := "User already exists" |}.
Definition FailedToCreateUser : Error :=
  {| code := INTERNAL_SERVER_ERROR; message := "Failed to create user" |}.
Definition InvalidCredentials : Error :=
  {| code := UNAUTHORIZED; message := "Invalid credentials" |}.
Definition TooManyAttempts : Error :=
  {| code := TOO_MANY_REQUESTS;
     message := "Too many login attempts. Please try again later." |}.
(** The insert of a session whose token another session holds
    ([text("token").unique()]). *)
Definition TokenTaken : Error :=
  {| code := INTERNAL_SERVER_ERROR; message := "UNIQUE constraint failed: sessions.token" |}.

(** [const loginAttempts = new Map<string, { count: number; expires: number }>()] *)
Record Attempts := mkAttempts { count : Z; expires : Z }.

Definition RATE_LIMIT_WINDOW : Z := 60 * 1000.
Definition MAX_ATTEMPTS : Z := 5.

(** The database tables of the router and the map it keeps in memory.
    [sessions_seq] is the largest rowid [sessions] ever used: its rows are
    deleted, and an [autoIncrement] key is not given twice. *)
Record Server := mkServer {
  users : list User.t;
  sessions : list Session.t;
  sessions_seq : Z;
  loginAttempts : gmap string Attempts;
}.

(** What a call reads from outside: the clock, the password hashing and
    comparison of [bcryptjs], the encryption of [lib/crypto], the signature of
    [jsonwebtoken], the expiry written in the session (seven days from now, as
    an ISO string) and the [CURRENT_TIMESTAMP] of the database. *)
Record Env := mkEnv {
  Date_now : Z;
  bcrypt_hash : string -> string;
  bcrypt_compare : string -> string -> bool;
  encrypt : string -> string;
  jwt_sign : Z -> string;
  expiresAt : string;
  CURRENT_TIMESTAMP : string;
}.

(** [{ ...user, password: undefined }] *)
Record UserView := mkUserView {
  view_id : Z;
  view_email : string;
  view_firstName : string;
  view_lastName : string;
  view_phoneNumber : string;
  view_dateOfBirth : string;
  view_ssn : string;
  view_address : string;
  view_city : string;
  view_state : string;
  view_zipCode : string;
  view_createdAt : option string;
}.

Definition without_password (user : User.t) : UserView :=
  {| view_id := User.id user;
     view_email := User.email user;
     view_firstName := User.firstName user;
     view_lastName := User.lastName user;
     view_phoneNumber := User.phoneNumber user;
     view_dateOfBirth := User.dateOfBirth user;
     view_ssn := User.ssn user;
     view_address := User.address user;
     view_city := User.city user;
     view_state := User.state user;
     view_zipCode := User.zipCode user;
     view_createdAt := User.createdAt user |}.

(** What [signup] and [login] return, with the [Set-Cookie] header they
    set. *)
Record Signed := mkSigned { user : UserView; token : string; set_cookie : string }.

Definition session_cookie (token : string) : string :=
  "session=" +:+ token +:+ "; Path=/; HttpOnly; SameSite=Strict; Max-Age=604800".

(** [db.select().from(users).where(eq(users.email, email)).get()] *)
Definition user_by_email (email : string) (srv : Server) : option User.t :=
  List.find (fun u => bool_decide (User.email u = email)) (users srv).

Definition max_user_id (l : list User.t) : Z :=
  foldr (fun u acc => Z.max (User.id u) acc) 0 l.

Definition max_session_id (l : list Session.t) : Z :=
  foldr (fun s acc => Z.max (Session.id s) acc) 0 l.

(** [db.insert(sessions).values({ userId, token, expiresAt })]: the new table
    and sequence, or [None] when the token is taken. *)
Definition insert_session (env : Env) (userId : Z) (token : string)
    (rows : list Session.t) (seq : Z) : option (list Session.t * Z) :=
  if decide (Exists (fun s => Session.token s = token) rows) then None
  else
    let id := 1 + Z.max seq (max_session_id rows) in
    Some (rows ++ [{| Session.id := id;
                      Session.userId := userId;
                      Session.token := token;
                      Session.expiresAt := expiresAt env;
                      Session.createdAt := Some (CURRENT_TIMESTAMP env) |}],
          id).

(** ** [signup] *)

Record SignupInput := mkSignupInput {
  signup_email : string;
  signup_password : string;
  signup_firstName : string;
  signup_lastName : string;
  signup_phoneNumber : string;
  signup_dateOfBirth : string;
  signup_ssn : string;
  signup_address : string;
  signup_city : string;
  signup_state : string;
  signup_zipCode : string;
}.

(** [db.insert(users).values({ ...input, password: hashedPassword,
    ssn: encryptedSsn })] *)
Definition new_user (env : Env) (input : SignupInput) (rows : list User.t) : User.t :=
  {| User.id := 1 + max_user_id rows;
     User.email := signup_email input;
     User.password := bcrypt_hash env (signup_password input);
     User.firstName := signup_firstName input;
     User.lastName := signup_lastName input;
     User.phoneNumber := signup_phoneNumber input;
     User.dateOfBirth := signup_dateOfBirth input;
     User.ssn := encrypt env (signup_ssn input);
     User.address := signup_address input;
     User.city := signup_city input;
     User.state := signup_state input;
     User.zipCode := signup_zipCode input;
     User.createdAt := Some (CURRENT_TIMESTAMP env) |}.

Definition signup (env : Env) (input : SignupInput) (srv : Server)
  : outcome Signed * Server :=
  match user_by_email (signup_email input) srv with
  | Some existingUser => (Throw UserExists, srv)
  | None =>
      let srv :=
        {| users := users srv ++ [new_user env input (users srv)];
           sessions := sessions srv;
           sessions_seq := sessions_seq srv;
           loginAttempts := loginAttempts srv |} in
      match user_by_email (signup_email input) srv with
      | None => (Throw FailedToCreateUser, srv)
      | Some user =>
          let token := jwt_sign env (User.id user) in
          match insert_session env (User.id user) token (sessions srv) (sessions_seq srv) with
          | None => (Throw TokenTaken, srv)
          | Some (rows, seq) =>
              (Return {| user := without_password user; token := token;
                         set_cookie := session_cookie token |},
               {| users := users srv; sessions := rows; sessions_seq := seq;
                  loginAttempts := loginAttempts srv |})
          end
      end
  end.

(** ** [login] *)

Record LoginInput := mkLoginInput { login_email : string; login_password : string }.

(** The rate limiting at the head of [login]: the map after it, or [None] when
    it throws. *)
Definition rate_limit (now : Z) (email : string) (attempts : gmap string Attempts)
  : option (gmap string Attempts) :=
  match attempts !! email with
  | Some a =>
      if decide (now > expires a) then Some (delete email attempts)
      else if decide (count a >= MAX_ATTEMPTS) then None
      else Some attempts
  | None => Some attempts
  end.

(** "Record failed attempt":
    [const current = loginAttempts.get(email) || { count: 0, expires: now + RATE_LIMIT_WINDOW };
     loginAttempts.set(email, { count: current.count + 1, expires: current.expires })] *)
Definition record_failed_attempt (now : Z) (email : string)
    (attempts : gmap string Attempts) : gmap string Attempts :=
  let current :=
    default {| count := 0; expires := now + RATE_LIMIT_WINDOW |} (attempts !! email) in
  <[email := {| count := count current + 1; expires := expires current |}]> attempts.

Definition login (env : Env) (input : LoginInput) (srv : Server)
  : outcome Signed * Server :=
  let now := Date_now env in
  match rate_limit now (login_email input) (loginAttempts srv) with
  | None => (Throw TooManyAttempts, srv)
  | Some attempts =>
      let failed :=
        (Throw InvalidCredentials,
         {| users := users srv; sessions := sessions srv; sessions_seq := sessions_seq srv;
            loginAttempts := record_failed_attempt now (login_email input) attempts |}) in
      match user_by_email (login_email input) srv with
      | None => failed
      | Some user =>
          if bcrypt_compare env (login_password input) (User.password user) then
            let attempts := delete (login_email input) attempts in
            let rows := filter (fun s => Session.userId s <> User.id user) (sessions srv) in
            let token := jwt_sign env (User.id user) in
            match insert_session env (User.id user) token rows
                    (Z.max (sessions_seq srv) (max_session_id (sessions srv))) with
            | None =>
                (Throw TokenTaken,
                 {| users := users srv; sessions := rows;
                    sessions_seq := Z.max (sessions_seq srv) (max_session_id (sessions srv));
                    loginAttempts := attempts |})
            | Some (rows, seq) =>
                (Return {| user := without_password user; token := token;
                           set_cookie := session_cookie token |},
                 {| users := users srv; sessions := rows; sessions_seq := seq;
                    loginAttempts := attempts |})
            end
          else failed
      end
  end.

(** Whether the email and the password are those of a user. *)
Definition credentials_ok (env : Env) (input : LoginInput) (srv : Server) : bool :=
  match user_by_email (login_email input) srv with
  | Some user => bcrypt_compare env (login_password input) (User.password user)
  | None => false
  end.

(** Successive calls of [login] with one input, one environment each. *)
Definition logins (envs : list Env) (input : LoginInput) (srv : Server) : Server :=
  foldl (fun srv env => snd (login env input srv)) srv envs.

(** ** [logout] *)

Record LoggedOut := mkLoggedOut {
  success : bool;
  logout_message : string;
  logout_cookie : string;
}.

(** [ctx_user] is [ctx.user] and [cookie] the value of the [session] cookie
    that the handler reads from the request, [None] when there is none. *)
Definition logout (ctx_user : option User.t) (cookie : option string) (srv : Server)
  : LoggedOut * Server :=
  let srv :=
    match ctx_user, cookie with
    | Some _, Some (String c t) =>
        {| users := users srv;
           sessions := filter (fun s => Session.token s <> String c t) (sessions srv);
           sessions_seq := Z.max (sessions_seq srv) (max_session_id (sessions srv));
           loginAttempts := loginAttempts srv |}
    | _, _ => srv
    end in
  ({| success := true;
      logout_message :=
        match ctx_user with
        | Some _ => "Logged out successfully"
        | None => "No active session"
        end;
      logout_cookie :=
        "session=; Path=/; HttpOnly; SameSite=Strict; Max-Age=0; "
        +:+ "Expires=Thu, 01 Jan 1970 00:00:00 GMT" |},
   srv).

(** The sessions of a user. *)
Definition sessions_of (userId : Z) (srv : Server) : list Session.t :=
  filter (fun s => Session.userId s = userId) (sessions srv).

End Auth.

(** * Properties *)

(** ** Funding a single account *)

Lemma select_owned_account_Some (db : DB) (accountId user : Z) (a : Account.t) :
  select_owned_account db accountId user = Some a <->
  accounts db !! accountId = Some a /\ Account.userId a = user.
Proof.
  unfold select_owned_account.
  destruct (accounts db !! accountId) as [a'|]; [|split; [done|intros [? _]; done]].
  destruct (decide (Account.userId a' = user)) as [Heq|Hne]; split.
  - by intros [= ->].
  - by intros [[= ->] _].
  - done.
  - intros [[= ->] ?]; done.
Qed.

Lemma select_owned_account_None (db : DB) (accountId user : Z) :
  select_owned_account db accountId user = None <->
  forall a, accounts db !! accountId = Some a -> Account.userId a <> user.
Proof.
  unfold select_owned_account.
  destruct (accounts db !! accountId) as [a'|]; [|split; [intros _ a; done|done]].
  destruct (decide (Account.userId a' = user)) as [Heq|Hne]; split.
  - done.
  - intros H. by destruct (H a' eq_refl).
  - by intros _ a [= <-].
  - done.
Qed.

Section Funding.
Variables (clk : Clock) (input : FundInput.t) (db : DB).

(** The commit on an active snapshot, when the row is (still) in the table:
    the deposit row is appended and the stored balance is incremented. *)
Lemma fund_commit_active (snapshot current : Account.t) :
  Account.status snapshot = Some "active" ->
  accounts db !! FundInput.accountId input = Some current ->
  fund_commit clk input (Some snapshot) db =
    (Return {| transaction := deposit_row clk input (FundInput.amount input) db;
               newBalance := (Account.balance current + FundInput.amount input)%float |},
     {| accounts := <[FundInput.accountId input :=
                        add_balance (FundInput.amount input) current]> (accounts db);
        transactions :=
          transactions db ++ [deposit_row clk input (FundInput.amount input) db] |}).
Proof.
  intros Hactive Hrow. unfold fund_commit.
  destruct (decide (Account.status snapshot = Some "active")) as [_|]; [|done].
  unfold db_transaction, insert_deposit, update_balance, parseFloat_toString; simpl.
  by rewrite Hrow.
Qed.

Lemma fund_commit_inactive (snapshot : Account.t) :
  Account.status snapshot <> Some "active" ->
  fund_commit clk input (Some snapshot) db = (Throw InactiveAccount, db).
Proof.
  intros Hstatus. unfold fund_commit.
  by destruct (decide (Account.status snapshot = Some "active")).
Qed.

Lemma fundAccount_active (user : Z) (a : Account.t) :
  accounts db !! FundInput.accountId input = Some a ->
  Account.userId a = user ->
  Account.status a = Some "active" ->
  fundAccount clk user input db =
    (Return {| transaction := deposit_row clk input (FundInput.amount input) db;
               newBalance := (Account.balance a + FundInput.amount input)%float |},
     {| accounts := <[FundInput.accountId input :=
                        add_balance (FundInput.amount input) a]> (accounts db);
        transactions :=
          transactions db ++ [deposit_row clk input (FundInput.amount input) db] |}).
Proof.
  intros Hrow Howner Hactive. unfold fundAccount, fund_select.
  assert (select_owned_account db (FundInput.accountId input) user = Some a) as ->
    by by apply select_owned_account_Some.
  by apply fund_commit_active.
Qed.
End Funding.

Lemma account_transactions_app (m : gmap Z Account.t) (l1 l2 : list Transaction.t)
    (accountId : Z) :
  account_transactions {| accounts := m; transactions := l1 ++ l2 |} accountId
  = account_transactions {| accounts := m; transactions := l1 |} accountId
    ++ filter (fun t => Transaction.accountId t = accountId) l2.
Proof. unfold account_transactions; simpl. apply filter_app. Qed.



(** C3.  On an account whose status is not "active" ("pending", "closed", any
    other text or none), [fundAccount] called by the owner throws the
    inactive-account error ([BAD_REQUEST], "Account is not active") and the
    database is left as it was: same balances, same transactions. *)
Theorem fundAccount_inactive_rejected
    (clk : Clock) (user : Z) (input : FundInput.t) (db : DB) (a : Account.t) :
  accounts db !! FundInput.accountId input = Some a ->
  Account.userId a = user ->
  Account.status a <> Some "active" ->
  fundAccount clk user input db = (Throw InactiveAccount, db)
  /\ accounts (snd (fundAccount clk user input db)) !! FundInput.accountId input = Some a
  /\ length (account_transactions (snd (fundAccount clk user input db))
                                  (FundInput.accountId input))
     = length (account_transactions db (FundInput.accountId input)).
Proof.
  intros Hrow Howner Hstatus.
  assert (fundAccount clk user input db = (Throw InactiveAccount, db)) as Heq.
  { unfold fundAccount, fund_select.
    assert (select_owned_account db (FundInput.accountId input) user = Some a) as ->
      by by apply select_owned_account_Some.
    by apply fund_commit_inactive. }
  rewrite Heq. by repeat split.
Qed.

Lemma fundAccount_inactive_rejected_witness :
  fundAccount Scenario.clk 1 Scenario.fund50 InactiveScenario.db
    = (Throw InactiveAccount, InactiveScenario.db)
  /\ accounts (snd (fundAccount Scenario.clk 1 Scenario.fund50 InactiveScenario.db)) !! 1
     = Some InactiveScenario.closed_account
  /\ length (account_transactions
               (snd (fundAccount Scenario.clk 1 Scenario.fund50 InactiveScenario.db)) 1)
     = length (account_transactions InactiveScenario.db 1).
Proof.
  apply (fundAccount_inactive_rejected Scenario.clk 1 Scenario.fund50 InactiveScenario.db
           InactiveScenario.closed_account).
  - reflexivity.
  - reflexivity.
  - simpl. discriminate.
Defined.

(** C4.  When no account with id [accountId] is owned by [user] (there is no
    such row, or its owner is another user), [fundAccount] and
    [getTransactions] both throw the same not-found error ([NOT_FOUND],
    "Account not found"), so that the caller cannot tell the two cases apart,
    and [fundAccount] leaves the database as it was. *)
Theorem not_owned_not_found
    (clk : Clock) (user : Z) (input : FundInput.t) (db : DB) :
  (forall a, accounts db !! FundInput.accountId input = Some a -> Account.userId a <> user) ->
  fundAccount clk user input db = (Throw NotFound, db)
  /\ getTransactions user (FundInput.accountId input) db = Throw NotFound.
Proof.
  intros Hnone. apply select_owned_account_None in Hnone.
  unfold fundAccount, fund_select, getTransactions. by rewrite Hnone.
Qed.

Lemma not_owned_not_found_witness :
  (* account 1 belongs to user 1: user 2 asks for it, and for the absent account 9 *)
  (fundAccount Scenario.clk 2 Scenario.fund50 Scenario.db100 = (Throw NotFound, Scenario.db100)
   /\ getTransactions 2 1 Scenario.db100 = Throw NotFound)
  /\ (fundAccount Scenario.clk 2
        {| FundInput.accountId := 9; FundInput.amount := 50%float;
           FundInput.fundingSource := FundInput.fundingSource Scenario.fund50 |}
        Scenario.db100 = (Throw NotFound, Scenario.db100)
      /\ getTransactions 2 9 Scenario.db100 = Throw NotFound).
Proof.
  split.
  - apply (not_owned_not_found Scenario.clk 2 Scenario.fund50 Scenario.db100).
    intros a Ha. vm_compute in Ha. injection Ha as <-. simpl. lia.
  - apply (not_owned_not_found Scenario.clk 2
             {| FundInput.accountId := 9; FundInput.amount := 50%float;
                FundInput.fundingSource := FundInput.fundingSource Scenario.fund50 |}
             Scenario.db100).
    intros a Ha. vm_compute in Ha. discriminate.
Defined.

(** C10.  Two calls of [fundAccount] that differ only in the account number
    and the routing number of the funding source (same clock readings, user,
    account, amount and source type) return the same result and leave the same
    database; the description that is stored is "Funding from " followed by the
    source type, and no column of [accounts] or [transactions] holds the
    source's numbers. *)
Theorem fundAccount_source_numbers_ignored
    (clk : Clock) (user accountId : Z) (amount : float) (type : FundingSourceType)
    (accountNumber1 accountNumber2 : string) (routingNumber1 routingNumber2 : option string)
    (db : DB) :
  let input1 :=
    {| FundInput.accountId := accountId; FundInput.amount := amount;
       FundInput.fundingSource :=
         {| FundingSource.type := type; FundingSource.accountNumber := accountNumber1;
            FundingSource.routingNumber := routingNumber1 |} |} in
  let input2 :=
    {| FundInput.accountId := accountId; FundInput.amount := amount;
       FundInput.fundingSource :=
         {| FundingSource.type := type; FundingSource.accountNumber := accountNumber2;
            FundingSource.routingNumber := routingNumber2 |} |} in
  fundAccount clk user input1 db = fundAccount clk user input2 db
  /\ (forall r db', fundAccount clk user input1 db = (Return r, db') ->
        Transaction.description (transaction r)
        = Some ("Funding from " +:+ fundingSourceType_text type)).
Proof.
  intros input1 input2. split; [reflexivity|].
  intros r db'. unfold fundAccount, fund_commit.
  destruct (fund_select user input1 db) as [a|]; [|discriminate].
  destruct (decide (Account.status a = Some "active")); [|discriminate].
  unfold db_transaction, insert_deposit, update_balance. cbn [snd fst accounts].
  destruct (accounts db !! FundInput.accountId input1); [|discriminate].
  by intros [= <- _].
Qed.

(** ** The history of an account *)

Lemma string_compare_lt_trans (s t u : string) :
  String.compare s t = Lt -> String.compare t u = Lt -> String.compare s u = Lt.
Proof.
  revert t u. induction s as [|a s IH]; intros [|b t] [|c u]; simpl; try done.
  unfold Ascii.compare.
  destruct (N.compare_spec (Ascii.N_of_ascii a) (Ascii.N_of_ascii b)) as [Hab|Hab|Hab];
    destruct (N.compare_spec (Ascii.N_of_ascii b) (Ascii.N_of_ascii c)) as [Hbc|Hbc|Hbc];
    try done; intros Hst Htu.
  - rewrite Hab, Hbc, N.compare_refl. by apply IH with t.
  - rewrite Hab. by apply N.compare_lt_iff in Hbc as ->.
  - rewrite <- Hbc. by apply N.compare_lt_iff in Hab as ->.
  - assert (Ascii.N_of_ascii a < Ascii.N_of_ascii c)%N as Hac by lia.
    by apply N.compare_lt_iff in Hac as ->.
Qed.

Lemma compare_createdAt_lt_trans (x y z : option string) :
  compare_createdAt x y = Lt -> compare_createdAt y z = Lt -> compare_createdAt x z = Lt.
Proof.
  destruct x as [s|], y as [t|], z as [u|]; simpl; try done.
  apply string_compare_lt_trans.
Qed.

Lemma compare_createdAt_antisym (x y : option string) :
  compare_createdAt x y = CompOpp (compare_createdAt y x).
Proof.
  destruct x as [s|], y as [t|]; simpl; try done. apply String.compare_antisym.
Qed.

Lemma created_after_lt (x y : Transaction.t) :
  compare_createdAt (Transaction.createdAt x) (Transaction.createdAt y) = Lt ->
  created_after y x = true /\ created_after x y = false.
Proof.
  intros Hlt. unfold created_after.
  rewrite (compare_createdAt_antisym (Transaction.createdAt y)), Hlt. done.
Qed.

Lemma created_after_irrefl (x : Transaction.t) : created_after x x = false.
Proof.
  unfold created_after.
  pose proof (compare_createdAt_antisym (Transaction.createdAt x) (Transaction.createdAt x)).
  by destruct (compare_createdAt (Transaction.createdAt x) (Transaction.createdAt x)).
Qed.

Lemma created_after_asym (x y : Transaction.t) :
  created_after x y = true -> created_after y x = false.
Proof.
  unfold created_after. rewrite (compare_createdAt_antisym (Transaction.createdAt y)).
  by destruct (compare_createdAt (Transaction.createdAt x) (Transaction.createdAt y)).
Qed.

Lemma insert_desc_Permutation (t : Transaction.t) (l : list Transaction.t) :
  Permutation (t :: l) (insert_desc t l).
Proof.
  induction l as [|y ys IH]; simpl; [done|].
  destruct (created_after y t); [|done].
  rewrite <- IH. apply perm_swap.
Qed.

Lemma insert_desc_HdRel (x t : Transaction.t) (l : list Transaction.t) :
  desc_createdAt x t -> HdRel desc_createdAt x l -> HdRel desc_createdAt x (insert_desc t l).
Proof.
  intros Hxt Hhd. destruct l as [|y ys]; simpl; [by constructor|].
  destruct (created_after y t); constructor; [by inversion Hhd|done].
Qed.

Lemma insert_desc_Sorted (t : Transaction.t) (l : list Transaction.t) :
  Sorted desc_createdAt l -> Sorted desc_createdAt (insert_desc t l).
Proof.
  induction 1 as [|y ys Hsorted IH Hhd]; simpl; [by repeat constructor|].
  destruct (created_after y t) eqn:Hafter.
  - constructor; [done|]. apply insert_desc_HdRel; [|done].
    unfold desc_createdAt. by apply created_after_asym.
  - repeat constructor; done.
Qed.

Lemma orderBy_desc_createdAt_sorted (rows : list Transaction.t) :
  sorted_by_createdAt_desc rows (orderBy_desc_createdAt rows).
Proof.
  unfold sorted_by_createdAt_desc, orderBy_desc_createdAt.
  induction rows as [|t rows [IHperm IHsorted]]; simpl; [by split; constructor|].
  split; [|by apply insert_desc_Sorted].
  rewrite <- insert_desc_Permutation. by constructor.
Qed.

(** Three rows of strictly increasing [createdAt], in whatever order they were
    inserted, come out most recent first. *)
Lemma orderBy_desc_createdAt_three (t1 t2 t3 : Transaction.t) (rows : list Transaction.t) :
  compare_createdAt (Transaction.createdAt t1) (Transaction.createdAt t2) = Lt ->
  compare_createdAt (Transaction.createdAt t2) (Transaction.createdAt t3) = Lt ->
  Permutation rows [t1; t2; t3] ->
  orderBy_desc_createdAt rows = [t3; t2; t1].
Proof.
  intros H12 H23 Hperm.
  pose proof (compare_createdAt_lt_trans _ _ _ H12 H23) as H13.
  destruct (created_after_lt _ _ H12) as [A21 A12].
  destruct (created_after_lt _ _ H23) as [A32 A23].
  destruct (created_after_lt _ _ H13) as [A31 A13].
  assert (t1 <> t2) as N12 by (intros ->; by rewrite created_after_irrefl in A21).
  assert (t2 <> t3) as N23 by (intros ->; by rewrite created_after_irrefl in A32).
  assert (t1 <> t3) as N13 by (intros ->; by rewrite created_after_irrefl in A31).
  assert (NoDup rows) as Hnodup.
  { rewrite Hperm. repeat constructor; set_solver. }
  pose proof (Permutation_length Hperm) as Hlen.
  destruct rows as [|a [|b [|c [|? ?]]]]; try discriminate Hlen.
  assert (a ∈ [t1; t2; t3]) as Ha by (rewrite <- Hperm; set_solver).
  assert (b ∈ [t1; t2; t3]) as Hb by (rewrite <- Hperm; set_solver).
  assert (c ∈ [t1; t2; t3]) as Hc by (rewrite <- Hperm; set_solver).
  apply NoDup_cons in Hnodup as [Hab Hnodup].
  apply NoDup_cons in Hnodup as [Hbc _].
  set_unfold.
  destruct Ha as [-> | [-> | [-> | []]]], Hb as [-> | [-> | [-> | []]]],
    Hc as [-> | [-> | [-> | []]]];
    try (exfalso; naive_solver);
    unfold orderBy_desc_createdAt; simpl;
    rewrite ?A21, ?A12, ?A32, ?A23, ?A31, ?A13; simpl;
    rewrite ?A21, ?A12, ?A32, ?A23, ?A31, ?A13; reflexivity.
Qed.

Lemma compare_createdAt_eq (x y : option string) : compare_createdAt x y = Eq -> x = y.
Proof.
  destruct x as [s|], y as [t|]; simpl; try done.
  intros Heq. f_equal. by apply String.compare_eq_iff.
Qed.

Lemma desc_createdAt_trans (x y z : Transaction.t) :
  desc_createdAt x y -> desc_createdAt y z -> desc_createdAt x z.
Proof.
  unfold desc_createdAt, created_after. intros Hxy Hyz.
  rewrite (compare_createdAt_antisym (Transaction.createdAt z)).
  rewrite (compare_createdAt_antisym (Transaction.createdAt y)) in Hxy.
  rewrite (compare_createdAt_antisym (Transaction.createdAt z)) in Hyz.
  destruct (compare_createdAt (Transaction.createdAt x) (Transaction.createdAt z)) eqn:Hxz;
    simpl; try done.
  destruct (compare_createdAt (Transaction.createdAt x) (Transaction.createdAt y)) eqn:Hxy';
    simpl in Hxy; try done.
  - apply compare_createdAt_eq in Hxy'. rewrite <- Hxy', Hxz in Hyz. done.
  - rewrite (compare_createdAt_antisym (Transaction.createdAt x)) in Hxy'.
    destruct (compare_createdAt (Transaction.createdAt y) (Transaction.createdAt x)) eqn:Hyx;
      try done.
    by rewrite (compare_createdAt_lt_trans _ _ _ Hyx Hxz) in Hyz.
Qed.

(** C5, as the code has it.  For an account owned by the caller,
    [getTransactions] returns the transactions of the account, each with the
    account type, ordered by [createdAt] descending: every transaction is at
    least as recent as all those after it.  The query has no second sort key,
    so nothing is promised on transactions of equal [createdAt]; transactions
    created at times T1 < T2 < T3 are returned in the order T3, T2, T1. *)
Theorem getTransactions_descending (user accountId : Z) (db : DB) (a : Account.t) :
  accounts db !! accountId = Some a ->
  Account.userId a = user ->
  exists l : list Transaction.t,
    getTransactions user accountId db =
      Return (map (fun t => {| Enriched.transaction := t;
                               Enriched.accountType := Account.accountType a |}) l)
    /\ Permutation (account_transactions db accountId) l
    /\ StronglySorted desc_createdAt l
    /\ (forall t1 t2 t3 : Transaction.t,
          compare_createdAt (Transaction.createdAt t1) (Transaction.createdAt t2) = Lt ->
          compare_createdAt (Transaction.createdAt t2) (Transaction.createdAt t3) = Lt ->
          Permutation (account_transactions db accountId) [t1; t2; t3] ->
          l = [t3; t2; t1]).
Proof.
  intros Hrow Howner.
  exists (orderBy_desc_createdAt (account_transactions db accountId)).
  destruct (orderBy_desc_createdAt_sorted (account_transactions db accountId))
    as [Hperm Hsorted].
  split; [|split; [done|split]].
  - unfold getTransactions.
    by assert (select_owned_account db accountId user = Some a) as ->
      by by apply select_owned_account_Some.
  - apply Sorted_StronglySorted; [|done].
    intros x y z. apply desc_createdAt_trans.
  - intros t1 t2 t3 H12 H23. by apply orderBy_desc_createdAt_three.
Qed.

Lemma getTransactions_descending_witness :
  exists l : list Transaction.t,
    getTransactions 1 1 HistoryScenario.db =
      Return (map (fun t => {| Enriched.transaction := t;
                               Enriched.accountType := "checking" |}) l)
    /\ Permutation [HistoryScenario.t10; HistoryScenario.t20; HistoryScenario.t30] l
    /\ StronglySorted desc_createdAt l
    /\ (forall t1 t2 t3 : Transaction.t,
          compare_createdAt (Transaction.createdAt t1) (Transaction.createdAt t2) = Lt ->
          compare_createdAt (Transaction.createdAt t2) (Transaction.createdAt t3) = Lt ->
          Permutation [HistoryScenario.t10; HistoryScenario.t20; HistoryScenario.t30]
                      [t1; t2; t3] ->
          l = [t3; t2; t1]).
Proof.
  apply (getTransactions_descending 1 1 HistoryScenario.db Scenario.account100).
  - reflexivity.
  - reflexivity.
Defined.

(** The sorting test of [src/__tests__/integration.test.ts]: the amounts come
    back as 20, 10, 30. *)
Example getTransactions_sorting_test :
  getTransactions 1 1 HistoryScenario.db =
    Return (map (fun t => {| Enriched.transaction := t; Enriched.accountType := "checking" |})
                [HistoryScenario.t20; HistoryScenario.t10; HistoryScenario.t30]).
Proof. vm_compute. reflexivity. Qed.

(** C5 fails on transactions of equal [createdAt].  After two funding calls
    within one second the two deposits carry the same [createdAt]; the history
    lists the one inserted first (id 1) before the one inserted later (id 2).
    Either order is a result of [ORDER BY created_at DESC]. *)
Lemma getTransactions_tie_earlier_first :
  transactions TieScenario.db = [TieScenario.deposit 1; TieScenario.deposit 2]
  /\ Transaction.createdAt (TieScenario.deposit 1) = Transaction.createdAt (TieScenario.deposit 2)
  /\ getTransactions 1 1 TieScenario.db =
       Return [TieScenario.enriched (TieScenario.deposit 1);
               TieScenario.enriched (TieScenario.deposit 2)]
  /\ getTransactions 1 1 TieScenario.db <>
       Return [TieScenario.enriched (TieScenario.deposit 2);
               TieScenario.enriched (TieScenario.deposit 1)]
  /\ sorted_by_createdAt_desc (transactions TieScenario.db)
       [TieScenario.deposit 1; TieScenario.deposit 2]
  /\ sorted_by_createdAt_desc (transactions TieScenario.db)
       [TieScenario.deposit 2; TieScenario.deposit 1].
Proof.
  assert (transactions TieScenario.db = [TieScenario.deposit 1; TieScenario.deposit 2])
    as Hrows by (vm_compute; reflexivity).
  assert (getTransactions 1 1 TieScenario.db =
            Return [TieScenario.enriched (TieScenario.deposit 1);
                    TieScenario.enriched (TieScenario.deposit 2)])
    as Hhistory by (vm_compute; reflexivity).
  split; [done|]. split; [done|]. split; [done|]. split.
  - rewrite Hhistory. intros [=].
  - rewrite Hrows. split; split; try done.
    + repeat constructor.
    + apply perm_swap.
    + repeat constructor.
Qed.

(** ** Creating an account *)

(** Closed decidable facts about a concrete store are settled by evaluation. *)
Ltac prove_by_computation :=
  lazymatch goal with
  | |- ?P => apply (bool_decide_unpack P); vm_compute; exact I
  end.
Ltac refute_by_computation :=
  lazymatch goal with
  | |- ~ ?P => apply (bool_decide_eq_false_1 P); vm_compute; reflexivity
  end.

Lemma max_account_id_ge (m : gmap Z Account.t) (k : Z) (a : Account.t) :
  m !! k = Some a -> k <= max_account_id m.
Proof.
  unfold max_account_id. revert k a.
  apply (map_fold_weak_ind
           (fun r (m : gmap Z Account.t) => forall k a, m !! k = Some a -> k <= r)).
  - intros k a. by rewrite lookup_empty.
  - intros i x m' r _ IH k a. rewrite lookup_insert.
    destruct (decide (i = k)) as [->|_]; [lia|].
    intros Hk. specialize (IH k a Hk). lia.
Qed.

Lemma next_account_id_fresh (db : DB) : accounts db !! next_account_id db = None.
Proof.
  destruct (accounts db !! next_account_id db) as [a|] eqn:Hrow; [|done].
  apply max_account_id_ge in Hrow. unfold next_account_id in Hrow. lia.
Qed.

Lemma unique_account_number_first_free (fuel : nat) (entropy : nat -> Z) (db : DB) (k : nat) :
  (forall i, (i < k)%nat -> account_number_exists db (generateAccountNumber (entropy i))) ->
  ~ account_number_exists db (generateAccountNumber (entropy k)) ->
  unique_account_number fuel entropy db =
    if decide (k < fuel)%nat then Some (generateAccountNumber (entropy k)) else None.
Proof.
  revert entropy k. induction fuel as [|fuel IH]; intros entropy k Htaken Hfree;
    cbn [unique_account_number].
  - destruct (decide (k < 0)%nat); [lia|done].
  - destruct k as [|k].
    + rewrite decide_False by done.
      destruct (decide (0 < S fuel)%nat); [done|lia].
    + rewrite decide_True by (apply Htaken; lia).
      rewrite (IH (fun i => entropy (S i)) k).
      * destruct (decide (k < fuel)%nat), (decide (S k < S fuel)%nat); done || lia.
      * intros i Hi. apply Htaken. lia.
      * done.
Qed.

Lemma unique_account_number_all_taken (fuel : nat) (entropy : nat -> Z) (db : DB) :
  (forall i, account_number_exists db (generateAccountNumber (entropy i))) ->
  unique_account_number fuel entropy db = None.
Proof.
  revert entropy. induction fuel as [|fuel IH]; intros entropy Htaken;
    cbn [unique_account_number]; [done|].
  rewrite decide_True by apply Htaken. apply IH. intros i. apply Htaken.
Qed.

Lemma createAccount_conflict_iff (fuel : nat) (entropy : nat -> Z) (now : string) (user : Z)
    (accountType : AccountType) (db : DB) :
  (exists e db', createAccount fuel entropy now user accountType db = Some (Throw e, db'))
  <-> has_account_of_type db user (accountType_text accountType).
Proof.
  unfold createAccount.
  destruct (decide (has_account_of_type db user (accountType_text accountType))) as [Hhas|Hnot].
  - split; [done|]. intros _. by eexists _, _.
  - split; [|done]. intros (e & db' & Heq).
    by destruct (unique_account_number fuel entropy db).
Qed.

Lemma createAccount_throws_conflict (fuel : nat) (entropy : nat -> Z) (now : string)
    (user : Z) (accountType : AccountType) (db : DB) (e : TRPCError) (db' : DB) :
  createAccount fuel entropy now user accountType db = Some (Throw e, db') ->
  e = Conflict (accountType_text accountType) /\ db' = db
  /\ has_account_of_type db user (accountType_text accountType).
Proof.
  unfold createAccount.
  destruct (decide (has_account_of_type db user (accountType_text accountType))).
  - by intros [= <- <-].
  - by destruct (unique_account_number fuel entropy db).
Qed.

(** C6, as the code has it.  The loop of [createAccount] has no retry bound and
    no error of its own.  When the owner has no account of the type yet, the
    call ends at the first generated account number that no account holds: if
    the first [k] numbers collide and the next one is free, the account is
    created with that number as soon as the loop may run [k + 1] times, and the
    loop is still running after [k] iterations or fewer.  On a store where
    every generated number collides the loop is still running after any number
    of iterations.  The only error [createAccount] throws is the conflict on
    the account type. *)
Theorem createAccount_loop_unbounded :
  (forall (entropy : nat -> Z) (now : string) (user : Z) (accountType : AccountType)
          (db : DB),
      ~ has_account_of_type db user (accountType_text accountType) ->
      (forall k : nat,
          (forall i, (i < k)%nat ->
                     account_number_exists db (generateAccountNumber (entropy i))) ->
          ~ account_number_exists db (generateAccountNumber (entropy k)) ->
          forall fuel : nat,
            createAccount fuel entropy now user accountType db =
              if decide (k < fuel)%nat then
                let account := new_account now user (generateAccountNumber (entropy k))
                                           (accountType_text accountType) in
                Some (Return (next_account_id db, account),
                      {| accounts := <[next_account_id db := account]> (accounts db);
                         transactions := transactions db |})
              else None)
      /\ ((forall i, account_number_exists db (generateAccountNumber (entropy i))) ->
          forall fuel : nat, createAccount fuel entropy now user accountType db = None))
  /\ (forall (fuel : nat) (entropy : nat -> Z) (now : string) (user : Z)
             (accountType : AccountType) (db : DB) (e : TRPCError) (db' : DB),
        createAccount fuel entropy now user accountType db = Some (Throw e, db') ->
        e = Conflict (accountType_text accountType)).
Proof.
  split.
  - intros entropy now user accountType db Hnot. split.
    + intros k Htaken Hfree fuel. unfold createAccount.
      rewrite decide_False by done.
      rewrite (unique_account_number_first_free fuel entropy db k Htaken Hfree).
      by destruct (decide (k < fuel)%nat).
    + intros Htaken fuel. unfold createAccount.
      rewrite decide_False by done.
      by rewrite unique_account_number_all_taken.
  - intros fuel entropy now user accountType db e db' Heq.
    by apply createAccount_throws_conflict in Heq as [-> _].
Qed.

Lemma createAccount_loop_unbounded_witness :
  (* the draws 1000000000 and 1000000001 collide, 1000000002 is free *)
  createAccount 3 CollisionScenario.counting "2024-05-02 08:00:00" 3 savings
                CollisionScenario.db
  = Some (Return (3, new_account "2024-05-02 08:00:00" 3 "1000000002" "savings"),
          {| accounts :=
               <[3 := new_account "2024-05-02 08:00:00" 3 "1000000002" "savings"]>
                 (accounts CollisionScenario.db);
             transactions := [] |})
  /\ createAccount 2 CollisionScenario.counting "2024-05-02 08:00:00" 3 savings
                   CollisionScenario.db = None.
Proof.
  assert (~ has_account_of_type CollisionScenario.db 3 (accountType_text savings)) as Hnot.
  { refute_by_computation. }
  assert (forall i, (i < 2)%nat ->
            account_number_exists CollisionScenario.db
              (generateAccountNumber (CollisionScenario.counting i))) as Htaken.
  { intros [|[|i]] Hi; [| |lia]; prove_by_computation. }
  assert (~ account_number_exists CollisionScenario.db
              (generateAccountNumber (CollisionScenario.counting 2))) as Hfree.
  { refute_by_computation. }
  pose proof (proj1 (proj1 createAccount_loop_unbounded CollisionScenario.counting
                       "2024-05-02 08:00:00" 3 savings CollisionScenario.db Hnot)
                2%nat Htaken Hfree) as Hloop.
  split.
  - exact (Hloop 3%nat).
  - exact (Hloop 2%nat).
Defined.

(** C6 fails: there is no retry bound.  On a store that holds the account
    number 1000000000, with a generator whose every draw is 1000000000, the loop
    of [createAccount] is still running after any number of iterations: the
    call never returns and never fails. *)
Lemma createAccount_loop_never_gives_up :
  account_number_exists CollisionScenario.db
    (generateAccountNumber (CollisionScenario.stuck 0))
  /\ (forall fuel : nat,
        createAccount fuel CollisionScenario.stuck "2024-05-02 08:00:00" 3 savings
                      CollisionScenario.db = None).
Proof.
  assert (account_number_exists CollisionScenario.db
            (generateAccountNumber (CollisionScenario.stuck 0))) as Htaken
    by (prove_by_computation).
  split; [done|]. intros fuel. unfold createAccount.
  rewrite decide_False by refute_by_computation.
  by rewrite unique_account_number_all_taken.
Qed.

(** C8, as the code has it.  [createAccount] throws the conflict error exactly
    when the owner already holds an account of the requested type, whatever
    the status of that account: an owner whose only account of the type is
    closed is refused too.  A successful call keeps the invariant that no
    owner holds two accounts of one type that are not closed. *)
Theorem createAccount_conflict_any_status :
  (forall (fuel : nat) (entropy : nat -> Z) (now : string) (user : Z)
          (accountType : AccountType) (db : DB),
      createAccount fuel entropy now user accountType db =
        Some (Throw (Conflict (accountType_text accountType)), db)
      <-> has_account_of_type db user (accountType_text accountType))
  /\ (forall (fuel : nat) (entropy : nat -> Z) (now : string) (user : Z)
             (accountType : AccountType) (db : DB) (r : Z * Account.t) (db' : DB),
        no_two_open_accounts db ->
        createAccount fuel entropy now user accountType db = Some (Return r, db') ->
        no_two_open_accounts db').
Proof.
  split.
  - intros fuel entropy now user accountType db. split.
    + intros Heq. by apply createAccount_throws_conflict in Heq as (_ & _ & ?).
    + intros Hhas. unfold createAccount. by rewrite decide_True.
  - intros fuel entropy now user accountType db r db' Hinv. unfold createAccount.
    destruct (decide (has_account_of_type db user (accountType_text accountType)))
      as [|Hnot]; [done|].
    destruct (unique_account_number fuel entropy db) as [accountNumber|]; [|done].
    intros [= _ <-] i j a b. cbn [accounts]. rewrite !lookup_insert.
    assert (forall k c, accounts db !! k = Some c ->
              Account.userId c = user ->
              Account.accountType c = accountType_text accountType -> False) as Hnone.
    { intros k c Hk Huser Htype. apply Hnot. apply map_Exists_lookup. by exists k, c. }
    destruct (decide (next_account_id db = i)) as [<-|_],
             (decide (next_account_id db = j)) as [<-|_]; try done.
    + intros [= <-] Hb Huser Htype _ _. exfalso. by apply (Hnone j b).
    + intros Ha [= <-] Huser Htype _ _. exfalso. by apply (Hnone i a).
    + apply Hinv.
Qed.

Lemma createAccount_conflict_any_status_witness :
  (createAccount 1 (fun _ => 0) "2024-05-02 08:00:00" 1 checking Scenario.db100 =
     Some (Throw (Conflict "checking"), Scenario.db100))
  /\ no_two_open_accounts
       {| accounts :=
            <[2 := new_account "2024-05-02 08:00:00" 1 "1000000000" "savings"]>
              (accounts Scenario.db100);
          transactions := [] |}.
Proof.
  split.
  - apply (proj1 createAccount_conflict_any_status 1%nat (fun _ => 0)
             "2024-05-02 08:00:00" 1 checking Scenario.db100).
    prove_by_computation.
  - apply (proj2 createAccount_conflict_any_status 1%nat (fun _ => 0)
             "2024-05-02 08:00:00" 1 savings Scenario.db100
             (2, new_account "2024-05-02 08:00:00" 1 "1000000000" "savings")).
    + intros i j a b Hi Hj _ _ _ _.
      unfold Scenario.db100 in Hi, Hj. cbn [accounts] in Hi, Hj.
      apply lookup_singleton_Some in Hi as [<- _].
      by apply lookup_singleton_Some in Hj as [<- _].
    + vm_compute. reflexivity.
Defined.

(** C8 fails on closed accounts.  User 1 holds one checking account, which is
    closed, hence no checking account that is not closed; [createAccount] for
    a checking account still throws the conflict error. *)
Lemma createAccount_closed_account_conflicts :
  accounts InactiveScenario.db = {[ 1 := InactiveScenario.closed_account ]}
  /\ Account.status InactiveScenario.closed_account = Some "closed"
  /\ ~ has_open_account_of_type InactiveScenario.db 1 "checking"
  /\ createAccount 1 (fun _ => 0) "2024-05-02 08:00:00" 1 checking InactiveScenario.db =
       Some (Throw (Conflict "checking"), InactiveScenario.db).
Proof.
  split; [done|]. split; [done|]. split.
  - refute_by_computation.
  - vm_compute. reflexivity.
Qed.

(** ** The ledger of an account *)




Lemma fundAccount_cases (clk : Clock) (user : Z) (input : FundInput.t) (db : DB) :
  (exists e, fundAccount clk user input db = (Throw e, db))
  \/ (exists a, accounts db !! FundInput.accountId input = Some a
        /\ fundAccount clk user input db =
           (Return {| transaction := deposit_row clk input (FundInput.amount input) db;
                      newBalance := (Account.balance a + FundInput.amount input)%float |},
            {| accounts := <[FundInput.accountId input :=
                               add_balance (FundInput.amount input) a]> (accounts db);
               transactions :=
                 transactions db ++ [deposit_row clk input (FundInput.amount input) db] |})).
Proof.
  destruct (select_owned_account db (FundInput.accountId input) user) as [a|] eqn:Hsel.
  - apply select_owned_account_Some in Hsel as [Hrow Howner].
    destruct (decide (Account.status a = Some "active")) as [Hactive|Hinactive].
    + right. exists a. split; [done|]. by apply fundAccount_active.
    + left. exists InactiveAccount. unfold fundAccount, fund_select.
      assert (select_owned_account db (FundInput.accountId input) user = Some a) as ->
        by by apply select_owned_account_Some.
      by apply fund_commit_inactive.
  - left. exists NotFound. unfold fundAccount, fund_select. by rewrite Hsel.
Qed.









(** ** Binary64 balances *)

Lemma fund_all_balance (user accountId : Z) (calls : list (Clock * FundInput.t))
    (db : DB) (a : Account.t) :
  accounts db !! accountId = Some a ->
  Account.userId a = user ->
  Account.status a = Some "active" ->
  Forall (fun c => FundInput.accountId (snd c) = accountId) calls ->
  exists a', accounts (fund_all user calls db) !! accountId = Some a'
    /\ Account.userId a' = user /\ Account.status a' = Some "active"
    /\ Account.balance a' =
         foldl (fun s c => (s + FundInput.amount (snd c))%float) (Account.balance a) calls.
Proof.
  intros Hrow Howner Hactive Hcalls. revert db a Hrow Howner Hactive.
  induction Hcalls as [|[clk input] calls Hid _ IH]; intros db a Hrow Howner Hactive.
  - by exists a.
  - simpl in Hid. subst accountId. unfold fund_all. cbn [foldl fst snd].
    rewrite (fundAccount_active clk input db user a) by done. cbn [snd].
    apply (IH _ (add_balance (FundInput.amount input) a)); [|done..].
    cbn [accounts]. by rewrite lookup_insert_eq.
Qed.

(** C9, as the code has it.  The balance is a binary64 number, and
    [fundAccount] replaces it by the binary64 sum of the stored balance and the
    amount, computed once by the store.  Over successive funding calls on an
    active account by its owner the balance is the sum of the amounts taken
    from left to right in binary64, each addition rounded. *)
Theorem fundAccount_balance_binary64_sum
    (user accountId : Z) (calls : list (Clock * FundInput.t)) (db : DB) (a : Account.t) :
  accounts db !! accountId = Some a ->
  Account.userId a = user ->
  Account.status a = Some "active" ->
  Forall (fun c => FundInput.accountId (snd c) = accountId) calls ->
  Account.balance <$> accounts (fund_all user calls db) !! accountId =
    Some (foldl (fun s c => (s + FundInput.amount (snd c))%float) (Account.balance a) calls).
Proof.
  intros Hrow Howner Hactive Hcalls.
  destruct (fund_all_balance user accountId calls db a Hrow Howner Hactive Hcalls)
    as (a' & -> & _ & _ & <-).
  done.
Qed.

Lemma fundAccount_balance_binary64_sum_witness :
  Account.balance <$>
    accounts (fund_all 1 [(Scenario.clk, Scenario.fund50); (Scenario.clk, Scenario.fund50)]
                       Scenario.db100) !! 1
  = Some ((100 + 50) + 50)%float.
Proof.
  apply (fundAccount_balance_binary64_sum 1 1
           [(Scenario.clk, Scenario.fund50); (Scenario.clk, Scenario.fund50)]
           Scenario.db100 Scenario.account100).
  - reflexivity.
  - reflexivity.
  - reflexivity.
  - repeat constructor.
Defined.

(** C9 fails: the balance is not exact on amounts given in minor units.  On a
    new account, a funding of 10 cents followed by a funding of 20 cents leaves
    the balance 0.30000000000000004, which is not the number for 30 cents. *)
Lemma fundAccount_rounding_drift :
  Account.balance <$> accounts (run LedgerScenario.calls empty_db) !! 1
    = Some 0.30000000000000004%float
  /\ Account.balance <$> accounts (run LedgerScenario.calls empty_db) !! 1
     <> Some (of_minor_units 30)
  /\ (of_minor_units 30 =? 0.30000000000000004)%float = false.
Proof.
  assert (Account.balance <$> accounts (run LedgerScenario.calls empty_db) !! 1
          = Some 0.30000000000000004%float) as Hbalance by (vm_compute; reflexivity).
  split; [done|]. split; [|vm_compute; reflexivity].
  rewrite Hbalance. intros Heq.
  apply (f_equal (fun o => match o with
                           | Some x => (x =? of_minor_units 30)%float
                           | None => false
                           end)) in Heq.
  vm_compute in Heq. discriminate Heq.
Qed.

(** ** Funding calls in flight *)




Section Pool.
Variables (user accountId : Z) (inputs : list FundInput.t) (db0 : DB) (a0 : Account.t).



End Pool.







(** * Further properties of the account router *)

(** ** The accounts of a user *)

Lemma account_ids_elem (db : DB) (id : Z) :
  id ∈ account_ids db <-> is_Some (accounts db !! id).
Proof.
  unfold account_ids.
  by rewrite sorting.merge_sort_Permutation, elem_of_elements, elem_of_dom.
Qed.

Lemma account_ids_NoDup (db : DB) : NoDup (account_ids db).
Proof.
  unfold account_ids. rewrite sorting.merge_sort_Permutation. apply NoDup_elements.
Qed.

Lemma account_ids_Sorted (db : DB) : Sorted Z.le (account_ids db).
Proof. apply sorting.Sorted_merge_sort; apply _. Qed.

Lemma omap_lookup_fst (m : gmap Z Account.t) (l : list Z) :
  (forall k, k ∈ l -> is_Some (m !! k)) ->
  (omap (fun id => (fun a => (id, a)) <$> m !! id) l).*1 = l.
Proof.
  induction l as [|k l IH]; intros Hl; [done|].
  destruct (Hl k) as [a Ha]; [by left|]. cbn. rewrite Ha. cbn. f_equal.
  apply IH. intros j Hj. apply Hl. by right.
Qed.

Lemma omap_lookup_ext (m1 m2 : gmap Z Account.t) (l : list Z) :
  (forall k, k ∈ l -> m1 !! k = m2 !! k) ->
  omap (fun id => (fun a => (id, a)) <$> m1 !! id) l
  = omap (fun id => (fun a => (id, a)) <$> m2 !! id) l.
Proof.
  induction l as [|k l IH]; intros Hl; [done|].
  cbn. rewrite (Hl k) by by left. rewrite IH; [done|].
  intros j Hj. apply Hl. by right.
Qed.

Lemma account_rows_fst (db : DB) : (account_rows db).*1 = account_ids db.
Proof. apply omap_lookup_fst. intros k. apply account_ids_elem. Qed.

Lemma account_rows_elem (db : DB) (id : Z) (a : Account.t) :
  (id, a) ∈ account_rows db <-> accounts db !! id = Some a.
Proof.
  unfold account_rows. rewrite list_elem_of_omap. split.
  - intros (k & _ & Hk). destruct (accounts db !! k) as [b|] eqn:Hb; [|done].
    cbn in Hk. injection Hk as <- <-. done.
  - intros Ha. exists id. split; [|by rewrite Ha].
    apply account_ids_elem. by exists a.
Qed.

Lemma getAccounts_elem (user : Z) (db : DB) (id : Z) (a : Account.t) :
  (id, a) ∈ getAccounts user db <->
  accounts db !! id = Some a /\ Account.userId a = user.
Proof.
  unfold getAccounts. rewrite list_elem_of_filter, account_rows_elem. cbn. tauto.
Qed.

Lemma StronglySorted_sublist {A} (R : relation A) (k l : list A) :
  sublist k l -> StronglySorted R l -> StronglySorted R k.
Proof.
  induction 1 as [|x l1 l2 Hsub IH|x l1 l2 Hsub IH]; intros Hsorted; [done|..].
  - apply StronglySorted_inv in Hsorted as [Hl2 Hx]. constructor; [by apply IH|].
    rewrite Forall_forall in Hx. apply Forall_forall. intros y Hy. apply Hx.
    by eapply elem_of_sublist.
  - apply StronglySorted_inv in Hsorted as [Hl2 _]. by apply IH.
Qed.

Lemma getAccounts_NoDup (user : Z) (db : DB) : NoDup (getAccounts user db).*1.
Proof.
  apply (sublist_NoDup _ (account_rows db).*1).
  - rewrite account_rows_fst. apply account_ids_NoDup.
  - apply fmap_sublist, sublist_filter.
Qed.

(** X1.  [getAccounts] lists exactly the accounts whose owner is the caller:
    a row is in the result if and only if it is a row of the table owned by
    the caller; no account is listed twice, and the rows come in the order of
    their ids. *)
Theorem getAccounts_exactly_owned (user : Z) (db : DB) :
  (forall (id : Z) (a : Account.t),
      (id, a) ∈ getAccounts user db <->
      accounts db !! id = Some a /\ Account.userId a = user)
  /\ NoDup (getAccounts user db).*1
  /\ Sorted Z.le (getAccounts user db).*1.
Proof.
  split; [|split].
  - intros id a. apply getAccounts_elem.
  - apply getAccounts_NoDup.
  - apply StronglySorted_Sorted.
    apply (StronglySorted_sublist _ _ (account_rows db).*1).
    + apply fmap_sublist, sublist_filter.
    + rewrite account_rows_fst. apply Sorted_StronglySorted; [|apply account_ids_Sorted].
      intros x y z. apply Z.le_trans.
Qed.

(** ** What a call changes *)

Lemma max_account_id_key (m : gmap Z Account.t) :
  max_account_id m = 0 \/ is_Some (m !! max_account_id m).
Proof.
  unfold max_account_id.
  apply (map_fold_weak_ind
           (fun r (m : gmap Z Account.t) => r = 0 \/ is_Some (m !! r))); [by left|].
  intros i x m' r _ IH.
  destruct (Z.max_spec i r) as [[_ ->]|[_ ->]].
  - destruct IH as [->|IH]; [by left|]. right. rewrite lookup_insert_is_Some.
    destruct (decide (i = r)); auto.
  - right. rewrite lookup_insert_is_Some. by left.
Qed.

Lemma unique_account_number_Some (fuel : nat) (entropy : nat -> Z) (db : DB) (n : string) :
  unique_account_number fuel entropy db = Some n ->
  ~ account_number_exists db n /\ exists k, n = generateAccountNumber (entropy k).
Proof.
  revert entropy. induction fuel as [|fuel IH]; intros entropy; cbn [unique_account_number];
    [done|].
  destruct (decide (account_number_exists db (generateAccountNumber (entropy 0%nat))))
    as [|Hfree].
  - intros Hloop. destruct (IH _ Hloop) as [Hn [k ->]]. split; [done|]. by exists (S k).
  - intros [= <-]. split; [done|]. by exists 0%nat.
Qed.

Lemma createAccount_Return (fuel : nat) (entropy : nat -> Z) (now : string) (user : Z)
    (accountType : AccountType) (db : DB) (id : Z) (a : Account.t) (db' : DB) :
  createAccount fuel entropy now user accountType db = Some (Return (id, a), db') ->
  ~ has_account_of_type db user (accountType_text accountType)
  /\ (exists k : nat,
        a = new_account now user (generateAccountNumber (entropy k))
                        (accountType_text accountType))
  /\ ~ account_number_exists db (Account.accountNumber a)
  /\ id = next_account_id db
  /\ db' = {| accounts := <[id := a]> (accounts db); transactions := transactions db |}.
Proof.
  unfold createAccount.
  destruct (decide (has_account_of_type db user (accountType_text accountType)))
    as [|Hnot]; [done|].
  destruct (unique_account_number fuel entropy db) as [n|] eqn:Hloop; [|done].
  apply unique_account_number_Some in Hloop as [Hfree [k ->]].
  intros [= <- <- <-]. split; [done|]. split; [by exists k|]. done.
Qed.

Lemma account_ids_insert_last (m : gmap Z Account.t) (l : list Transaction.t) (k : Z)
    (a : Account.t) :
  m !! k = None ->
  (forall j, is_Some (m !! j) -> j <= k) ->
  account_ids {| accounts := <[k := a]> m; transactions := l |}
  = account_ids {| accounts := m; transactions := l |} ++ [k].
Proof.
  intros Hfresh Hmax.
  apply (sorting.Sorted_unique Z.le).
  - apply account_ids_Sorted.
  - apply sorting.Sorted_snoc; [apply account_ids_Sorted|].
    destruct (account_ids {| accounts := m; transactions := l |}) as [|j0 ids] eqn:Hids
      using rev_ind; [constructor|].
    constructor. apply Hmax.
    apply (account_ids_elem {| accounts := m; transactions := l |}).
    rewrite Hids. set_solver.
  - unfold account_ids. rewrite !sorting.merge_sort_Permutation. cbn [accounts].
    rewrite dom_insert_L, elements_union_singleton by by apply not_elem_of_dom.
    apply Permutation_cons_append.
Qed.

Lemma account_rows_insert_last (m : gmap Z Account.t) (l : list Transaction.t) (k : Z)
    (a : Account.t) :
  m !! k = None ->
  (forall j, is_Some (m !! j) -> j <= k) ->
  account_rows {| accounts := <[k := a]> m; transactions := l |}
  = account_rows {| accounts := m; transactions := l |} ++ [(k, a)].
Proof.
  intros Hfresh Hmax. unfold account_rows.
  rewrite account_ids_insert_last by done. rewrite omap_app. cbn [accounts]. f_equal.
  - apply omap_lookup_ext. intros j Hj.
    apply (account_ids_elem {| accounts := m; transactions := l |}) in Hj.
    cbn [accounts] in Hj.
    apply lookup_insert_ne. intros ->. rewrite Hfresh in Hj. by destruct Hj.
  - cbn. by rewrite lookup_insert_eq.
Qed.

(** X2.  A successful [createAccount] adds exactly one row and changes nothing
    else: the id it returns was not in use, the returned account is stored
    under it, the other accounts and the transactions are as before; the
    account belongs to the caller, has the type asked for, balance 0, status
    "active" and an account number that no account had.  [getAccounts] of the
    caller then lists the same accounts as before followed by the new one,
    and [getAccounts] of any other user is unchanged. *)
Theorem createAccount_adds_one_account
    (fuel : nat) (entropy : nat -> Z) (now : string) (user : Z) (accountType : AccountType)
    (db : DB) (id : Z) (a : Account.t) (db' : DB) :
  createAccount fuel entropy now user accountType db = Some (Return (id, a), db') ->
  accounts db !! id = None
  /\ accounts db' = <[id := a]> (accounts db)
  /\ transactions db' = transactions db
  /\ Account.userId a = user
  /\ Account.accountType a = accountType_text accountType
  /\ Account.balance a = 0%float
  /\ Account.status a = Some "active"
  /\ ~ account_number_exists db (Account.accountNumber a)
  /\ getAccounts user db' = getAccounts user db ++ [(id, a)]
  /\ (forall other, other <> user -> getAccounts other db' = getAccounts other db).
Proof.
  intros Hcreate.
  apply createAccount_Return in Hcreate as (_ & [k Ha] & Hfree & -> & ->).
  assert (account_rows
            {| accounts := <[next_account_id db := a]> (accounts db);
               transactions := transactions db |}
          = account_rows db ++ [(next_account_id db, a)]) as Hrows.
  { destruct db as [m l]. apply account_rows_insert_last.
    - apply (next_account_id_fresh {| accounts := m; transactions := l |}).
    - intros j [b Hb]. apply max_account_id_ge in Hb. unfold next_account_id. cbn. lia. }
  split; [apply next_account_id_fresh|]. subst a. repeat split; try done.
  - unfold getAccounts. rewrite Hrows, filter_app. f_equal.
    by rewrite filter_cons_True.
  - intros other Hother. unfold getAccounts. rewrite Hrows, filter_app.
    rewrite filter_cons_False by (cbn; congruence). cbn. by rewrite app_nil_r.
Qed.

Lemma createAccount_adds_one_account_witness :
  let a := new_account "2024-05-02 08:00:00" 1 "1000000000" "savings" in
  let db' := {| accounts := <[2 := a]> (accounts Scenario.db100); transactions := [] |} in
  accounts Scenario.db100 !! 2 = None
  /\ accounts db' = <[2 := a]> (accounts Scenario.db100)
  /\ transactions db' = transactions Scenario.db100
  /\ Account.userId a = 1
  /\ Account.accountType a = accountType_text savings
  /\ Account.balance a = 0%float
  /\ Account.status a = Some "active"
  /\ ~ account_number_exists Scenario.db100 (Account.accountNumber a)
  /\ getAccounts 1 db' = getAccounts 1 Scenario.db100 ++ [(2, a)]
  /\ (forall other, other <> 1 -> getAccounts other db' = getAccounts other Scenario.db100).
Proof.
  apply (createAccount_adds_one_account 1%nat (fun _ => 0) "2024-05-02 08:00:00" 1 savings
           Scenario.db100 2).
  vm_compute. reflexivity.
Defined.

Lemma fundAccount_lookup (clk : Clock) (user : Z) (input : FundInput.t) (db : DB) (id : Z) :
  (id <> FundInput.accountId input ->
   accounts (snd (fundAccount clk user input db)) !! id = accounts db !! id)
  /\ (forall a', accounts (snd (fundAccount clk user input db)) !! id = Some a' ->
        exists a, accounts db !! id = Some a /\ same_account a' a)
  /\ (is_Some (accounts db !! id) ->
      is_Some (accounts (snd (fundAccount clk user input db)) !! id)).
Proof.
  destruct (fundAccount_cases clk user input db) as [[e ->]|(a & Hrow & ->)]; cbn [snd].
  - split; [done|]. split; [|done]. intros a' Ha'. by exists a'.
  - cbn [accounts]. split; [|split].
    + intros Hne. by rewrite lookup_insert_ne.
    + intros a'. rewrite lookup_insert.
      destruct (decide (FundInput.accountId input = id)) as [<-|_].
      * intros [= <-]. by exists a.
      * intros Ha'. by exists a'.
    + rewrite lookup_insert_is_Some. destruct (decide (FundInput.accountId input = id)); auto.
Qed.

Lemma getAccounts_fst_ext (user : Z) (db db' : DB) :
  dom (accounts db') = dom (accounts db) ->
  (forall id a', accounts db' !! id = Some a' ->
     exists a, accounts db !! id = Some a /\ Account.userId a' = Account.userId a) ->
  (getAccounts user db').*1 = (getAccounts user db).*1.
Proof.
  intros Hdom Hrows. unfold getAccounts, account_rows, account_ids. rewrite Hdom.
  assert (forall id, id ∈ sorting.merge_sort Z.le (elements (dom (accounts db))) ->
                     is_Some (accounts db' !! id)) as Hids.
  { intros id. rewrite sorting.merge_sort_Permutation, elem_of_elements, <- Hdom.
    apply elem_of_dom. }
  induction (sorting.merge_sort Z.le (elements (dom (accounts db)))) as [|id ids IH];
    [done|].
  destruct (Hids id) as [a' Ha']; [by left|].
  destruct (Hrows id a' Ha') as (a & Ha & Huser).
  specialize (IH (fun j Hj => Hids j (list_elem_of_further _ _ _ Hj))).
  change (omap ?f (id :: ids)) with
    (match f id with Some y => y :: omap f ids | None => omap f ids end).
  cbn beta. rewrite Ha', Ha. cbn [fmap option_fmap option_map].
  destruct (decide (Account.userId a' = user)) as [Ha'u|Ha'u].
  - rewrite !filter_cons_True by (cbn; congruence).
    rewrite !fmap_cons. by f_equal.
  - rewrite !filter_cons_False by (cbn; congruence).
    done.
Qed.

(** X3.  Whatever its outcome, [fundAccount] leaves every account other than
    the one it names as it was, and changes at most the balance of that one:
    owner, account number, type, status and creation time are kept, no account
    appears or disappears, and [getAccounts] of every user lists the same
    account ids as before. *)
Theorem fundAccount_changes_one_balance
    (clk : Clock) (user : Z) (input : FundInput.t) (db : DB) :
  let db' := snd (fundAccount clk user input db) in
  (forall id, id <> FundInput.accountId input -> accounts db' !! id = accounts db !! id)
  /\ (forall a', accounts db' !! FundInput.accountId input = Some a' ->
        exists a, accounts db !! FundInput.accountId input = Some a /\ same_account a' a)
  /\ dom (accounts db') = dom (accounts db)
  /\ (forall anyone, (getAccounts anyone db').*1 = (getAccounts anyone db).*1).
Proof.
  intros db'.
  assert (dom (accounts db') = dom (accounts db)) as Hdom.
  { apply set_eq. intros id. rewrite !elem_of_dom. split.
    - intros [a' Ha']. destruct (proj1 (proj2 (fundAccount_lookup clk user input db id))
                                   a' Ha') as (a & Ha & _). by exists a.
    - apply (fundAccount_lookup clk user input db id). }
  split; [|split; [|split; [done|]]].
  - intros id. apply (fundAccount_lookup clk user input db id).
  - apply (fundAccount_lookup clk user input db (FundInput.accountId input)).
  - intros anyone. apply getAccounts_fst_ext; [done|].
    intros id a' Ha'.
    destruct (proj1 (proj2 (fundAccount_lookup clk user input db id)) a' Ha')
      as (a & Ha & Hsame & _).
    by exists a.
Qed.

Lemma account_transactions_other (m : gmap Z Account.t) (l : list Transaction.t)
    (row : Transaction.t) (accountId : Z) :
  Transaction.accountId row <> accountId ->
  account_transactions {| accounts := m; transactions := l ++ [row] |} accountId
  = account_transactions {| accounts := m; transactions := l |} accountId.
Proof.
  intros Hne. rewrite account_transactions_app.
  rewrite filter_cons_False by done. cbn. by rewrite app_nil_r.
Qed.

Lemma getTransactions_history (user accountId : Z) (db : DB) (a : Account.t) :
  accounts db !! accountId = Some a -> Account.userId a = user ->
  history (getTransactions user accountId db)
  = Some (orderBy_desc_createdAt (account_transactions db accountId)).
Proof.
  intros Hrow Howner. unfold getTransactions.
  assert (select_owned_account db accountId user = Some a) as ->
    by by apply select_owned_account_Some.
  cbn. f_equal. rewrite <- list_fmap_compose. apply list_fmap_id.
Qed.

(** X4.  After a successful [fundAccount], the history that [getTransactions]
    gives the owner for the funded account holds the transaction that was
    returned together with the transactions it held before, and nothing else;
    the history of every other account, for every caller, is what it was. *)
Theorem fundAccount_extends_history
    (clk : Clock) (user : Z) (input : FundInput.t) (db : DB) (r : FundResult) (db' : DB) :
  fundAccount clk user input db = (Return r, db') ->
  (exists before after : list Transaction.t,
      history (getTransactions user (FundInput.accountId input) db) = Some before
      /\ history (getTransactions user (FundInput.accountId input) db') = Some after
      /\ Permutation after (transaction r :: before))
  /\ (forall caller accountId, accountId <> FundInput.accountId input ->
        getTransactions caller accountId db' = getTransactions caller accountId db).
Proof.
  intros Hfund.
  destruct (fundAccount_cases clk user input db) as [[e He]|(a & Hrow & Heq)];
    [by rewrite He in Hfund|].
  rewrite Heq in Hfund. injection Hfund as <- <-. cbn [transaction].
  assert (Account.userId a = user) as Howner.
  { unfold fundAccount, fund_select in Heq.
    destruct (select_owned_account db (FundInput.accountId input) user) as [b|] eqn:Hsel;
      [|done].
    apply select_owned_account_Some in Hsel as [Hb <-]. congruence. }
  split.
  - eexists _, _. split; [by apply (getTransactions_history _ _ _ a)|]. split.
    + apply (getTransactions_history _ _ _ (add_balance (FundInput.amount input) a));
        [|done].
      cbn [accounts]. by rewrite lookup_insert_eq.
    + rewrite account_transactions_app, filter_cons_True by done. cbn [filter list_filter].
      destruct (orderBy_desc_createdAt_sorted
                  (account_transactions db (FundInput.accountId input)
                   ++ [deposit_row clk input (FundInput.amount input) db])) as [Hperm _].
      change (account_transactions
                {| accounts := <[FundInput.accountId input :=
                                   add_balance (FundInput.amount input) a]> (accounts db);
                   transactions := transactions db |} (FundInput.accountId input))
        with (account_transactions db (FundInput.accountId input)).
      rewrite <- Hperm.
      destruct (orderBy_desc_createdAt_sorted
                  (account_transactions db (FundInput.accountId input))) as [Hperm' _].
      rewrite <- Hperm'. symmetry. apply Permutation_cons_append.
  - intros caller accountId Hne. unfold getTransactions, select_owned_account.
    cbn [accounts]. rewrite lookup_insert_ne by done.
    rewrite account_transactions_other by (cbn; congruence).
    done.
Qed.

Lemma fundAccount_extends_history_witness :
  (exists before after : list Transaction.t,
      history (getTransactions 1 1 Scenario.db100) = Some before
      /\ history (getTransactions 1 1
                    (snd (fundAccount Scenario.clk 1 Scenario.fund50 Scenario.db100)))
         = Some after
      /\ Permutation after (TieScenario.deposit 1 :: before))
  /\ (forall caller accountId, accountId <> 1 ->
        getTransactions caller accountId
          (snd (fundAccount Scenario.clk 1 Scenario.fund50 Scenario.db100))
        = getTransactions caller accountId Scenario.db100).
Proof.
  apply (fundAccount_extends_history Scenario.clk 1 Scenario.fund50 Scenario.db100
           {| transaction := TieScenario.deposit 1; newBalance := 150%float |}).
  vm_compute. reflexivity.
Defined.

Lemma max_transaction_id_ge (l : list Transaction.t) :
  Forall (fun t => Transaction.id t <= max_transaction_id l) l.
Proof.
  unfold max_transaction_id.
  induction l as [|t l IH]; [constructor|]. cbn [foldr]. constructor; [lia|].
  eapply Forall_impl; [exact IH|]. intros t' Ht'. cbn beta in *. lia.
Qed.

(** X5.  What a successful [fundAccount] returns is what it stored: the
    returned transaction is the last row of the table, its id is larger than
    every id in use before, and [newBalance] is the balance of the account
    that [getAccounts] then shows to the owner. *)
Theorem fundAccount_result_is_stored
    (clk : Clock) (user : Z) (input : FundInput.t) (db : DB) (r : FundResult) (db' : DB) :
  fundAccount clk user input db = (Return r, db') ->
  transactions db' = transactions db ++ [transaction r]
  /\ Forall (fun t => Transaction.id t < Transaction.id (transaction r)) (transactions db)
  /\ exists a', (FundInput.accountId input, a') ∈ getAccounts user db'
       /\ Account.balance a' = newBalance r.
Proof.
  intros Hfund.
  destruct (fundAccount_cases clk user input db) as [[e He]|(a & Hrow & Heq)];
    [by rewrite He in Hfund|].
  assert (Account.userId a = user) as Howner.
  { unfold fundAccount, fund_select in Heq.
    destruct (select_owned_account db (FundInput.accountId input) user) as [b|] eqn:Hsel;
      [|done].
    apply select_owned_account_Some in Hsel as [Hb <-]. congruence. }
  rewrite Heq in Hfund. injection Hfund as <- <-. cbn [transaction newBalance transactions].
  split; [done|]. split.
  - eapply Forall_impl; [apply max_transaction_id_ge|].
    cbn. unfold next_transaction_id. intros t. lia.
  - exists (add_balance (FundInput.amount input) a). split; [|done].
    apply getAccounts_elem. cbn [accounts]. by rewrite lookup_insert_eq.
Qed.

Lemma fundAccount_result_is_stored_witness :
  let db' := snd (fundAccount Scenario.clk 1 Scenario.fund50 Scenario.db100) in
  transactions db' = transactions Scenario.db100 ++ [TieScenario.deposit 1]
  /\ Forall (fun t => Transaction.id t < 1) (transactions Scenario.db100)
  /\ exists a', (1, a') ∈ getAccounts 1 db' /\ Account.balance a' = 150%float.
Proof.
  apply (fundAccount_result_is_stored Scenario.clk 1 Scenario.fund50 Scenario.db100
           {| transaction := TieScenario.deposit 1; newBalance := 150%float |}).
  vm_compute. reflexivity.
Defined.

(** ** What every run keeps *)

Lemma max_transaction_id_key (l : list Transaction.t) :
  max_transaction_id l = 0 \/ exists t, t ∈ l /\ Transaction.id t = max_transaction_id l.
Proof.
  unfold max_transaction_id.
  induction l as [|t l IH]; [by left|]. cbn [foldr].
  destruct (Z.max_spec (Transaction.id t)
              (foldr (fun t acc => Z.max (Transaction.id t) acc) 0 l)) as [[Hlt ->]|[_ ->]].
  - destruct IH as [IH|(t' & Ht' & IH)]; [by left|].
    right. exists t'. split; [by right|done].
  - right. exists t. split; [by left|done].
Qed.

Lemma next_account_id_consecutive (db : DB) :
  (forall k : Z, is_Some (accounts db !! k) <-> 1 <= k <= Z.of_nat (size (accounts db))) ->
  next_account_id db = Z.of_nat (size (accounts db)) + 1.
Proof.
  intros Hkeys. unfold next_account_id.
  assert (max_account_id (accounts db) = Z.of_nat (size (accounts db))); [|lia].
  destruct (max_account_id_key (accounts db)) as [Hzero|Hkey].
  - destruct (decide (size (accounts db) = 0%nat)) as [->|Hsize]; [done|].
    destruct (proj2 (Hkeys 1)) as [a Ha]; [lia|].
    apply max_account_id_ge in Ha. lia.
  - pose proof (proj1 (Hkeys _) Hkey) as Hle.
    destruct (proj2 (Hkeys (Z.of_nat (size (accounts db))))) as [a Ha]; [lia|].
    apply max_account_id_ge in Ha. lia.
Qed.

Lemma next_transaction_id_consecutive (db : DB) :
  (forall (i : nat) (t : Transaction.t),
      transactions db !! i = Some t -> Transaction.id t = Z.of_nat i + 1) ->
  next_transaction_id db = Z.of_nat (length (transactions db)) + 1.
Proof.
  intros Hids. unfold next_transaction_id.
  assert (max_transaction_id (transactions db) = Z.of_nat (length (transactions db)));
    [|lia].
  pose proof (max_transaction_id_ge (transactions db)) as Hge.
  destruct (max_transaction_id_key (transactions db)) as [Hzero|(t & Ht & Hkey)].
  - destruct (transactions db) as [|t l] eqn:Hl; [done|].
    destruct (lookup_lt_is_Some_2 (t :: l) (length l)) as [t' Ht']; [cbn; lia|].
    rewrite Forall_forall in Hge.
    pose proof (Hge t' (list_elem_of_lookup_2 _ _ _ Ht')) as Hle.
    rewrite (Hids _ _ Ht') in Hle. lia.
  - apply list_elem_of_lookup in Ht as [i Hi].
    pose proof (lookup_lt_Some _ _ _ Hi) as Hlt. rewrite (Hids _ _ Hi) in Hkey.
    destruct (lookup_lt_is_Some_2 (transactions db) (length (transactions db) - 1))
      as [t' Ht']; [lia|].
    rewrite Forall_forall in Hge.
    pose proof (Hge t' (list_elem_of_lookup_2 _ _ _ Ht')) as Hle.
    rewrite (Hids _ _ Ht') in Hle. lia.
Qed.

Lemma store_invariant_empty : store_invariant empty_db.
Proof.
  assert (forall id a, accounts empty_db !! id = Some a -> False) as Hnone.
  { intros id a Ha. unfold empty_db in Ha. cbn [accounts] in Ha.
    by rewrite lookup_empty in Ha. }
  split.
  - intros i j a b Ha. by destruct (Hnone i a).
  - intros i j a b Ha. by destruct (Hnone i a).
  - split.
    + intros k. unfold empty_db. cbn [accounts].
      rewrite lookup_empty, map_size_empty. split; [by intros []|lia].
    + by intros [|i] t.
  - intros id a Ha. by destruct (Hnone id a).
  - constructor.
Qed.

Lemma store_invariant_fundAccount (clk : Clock) (user : Z) (input : FundInput.t) (db : DB) :
  store_invariant db -> store_invariant (snd (fundAccount clk user input db)).
Proof.
  intros [Hnumbers Htypes [Hkeys Hids] Haccounts Hrecords].
  pose proof (fun id => proj1 (proj2 (fundAccount_lookup clk user input db id))) as Hback.
  pose proof (fun id => proj2 (proj2 (fundAccount_lookup clk user input db id))) as Hkeep.
  split.
  - intros i j a' b' Ha' Hb' Heq.
    destruct (Hback i a' Ha') as (a & Ha & _ & Hna & _).
    destruct (Hback j b' Hb') as (b & Hb & _ & Hnb & _).
    apply (Hnumbers i j a b); congruence.
  - intros i j a' b' Ha' Hb' Huser Htype.
    destruct (Hback i a' Ha') as (a & Ha & Hua & _ & Hta & _).
    destruct (Hback j b' Hb') as (b & Hb & Hub & _ & Htb & _).
    apply (Htypes i j a b); congruence.
  - destruct (fundAccount_cases clk user input db) as [[e ->]|(a & Hrow & ->)]; [done|].
    cbn [snd]. split; cbn [accounts transactions].
    + intros k. rewrite map_size_insert_Some by done. rewrite <- Hkeys.
      rewrite lookup_insert_is_Some. split; [|by destruct (decide (FundInput.accountId input = k)); auto].
      intros [<-|[_ ?]]; by eauto.
    + intros i t Hi. apply lookup_app_Some in Hi as [Hi|[Hlen Hi]]; [by apply Hids|].
      destruct (i - length (transactions db))%nat as [|?] eqn:Hdiff; [|done].
      injection Hi as <-. cbn.
      rewrite (next_transaction_id_consecutive _ Hids). lia.
  - intros id a' Ha'. destruct (Hback id a' Ha') as (a & Ha & _ & Hn & Ht & Hs & Hc).
    destruct (Haccounts id a Ha) as (? & ? & ? & entropy & ?).
    repeat split; try congruence. exists entropy. congruence.
  - assert (Forall (funding_record (snd (fundAccount clk user input db))) (transactions db))
      as Hold.
    { eapply Forall_impl; [exact Hrecords|]. intros t (? & ? & ? & ? & ? & ?).
      repeat split; try done. by apply Hkeep. }
    destruct (fundAccount_cases clk user input db) as [[e He]|(a & Hrow & He)];
      rewrite He in *; cbn [snd transactions] in *; [done|].
    apply Forall_app. split; [done|]. constructor; [|constructor].
    repeat split; cbn.
    + by rewrite lookup_insert_eq.
    + destruct (FundingSource.type (FundInput.fundingSource input)); auto.
    + done.
    + done.
Qed.

Lemma store_invariant_createAccount (fuel : nat) (entropy : nat -> Z) (now : string)
    (user : Z) (accountType : AccountType) (db : DB) (r : outcome (Z * Account.t))
    (db' : DB) :
  store_invariant db ->
  createAccount fuel entropy now user accountType db = Some (r, db') ->
  store_invariant db'.
Proof.
  intros Hinv Hcreate. destruct r as [[id a]|e];
    [|by apply createAccount_throws_conflict in Hcreate as (_ & -> & _)].
  destruct Hinv as [Hnumbers Htypes [Hkeys Hids] Haccounts Hrecords].
  apply createAccount_Return in Hcreate as (Hnot & [k Ha] & Hfree & -> & ->).
  pose proof (next_account_id_fresh db) as Hfresh.
  split; cbn [accounts transactions].
  - intros i j b c. cbn [accounts]. rewrite !lookup_insert.
    destruct (decide (next_account_id db = i)) as [<-|_],
             (decide (next_account_id db = j)) as [<-|_]; try done.
    + intros [= <-] Hc Heq. exfalso. apply Hfree. apply map_Exists_lookup. by exists j, c.
    + intros Hb [= <-] Heq. exfalso. apply Hfree. apply map_Exists_lookup. by exists i, b.
    + apply Hnumbers.
  - intros i j b c. cbn [accounts]. rewrite !lookup_insert.
    destruct (decide (next_account_id db = i)) as [<-|_],
             (decide (next_account_id db = j)) as [<-|_]; try done.
    + intros [= <-] Hc Huser Htype. exfalso. apply Hnot. apply map_Exists_lookup.
      exists j, c. subst a. cbn in *. by split.
    + intros Hb [= <-] Huser Htype. exfalso. apply Hnot. apply map_Exists_lookup.
      exists i, b. subst a. cbn in *. by split.
    + apply Htypes.
  - split; [|done]. intros j. cbn [accounts]. rewrite map_size_insert_None by done.
    rewrite lookup_insert_is_Some, (next_account_id_consecutive db Hkeys), Hkeys.
    split; [intros [<-|[_ ?]]; lia|]. intros Hj.
    destruct (decide (Z.of_nat (size (accounts db)) + 1 = j)); [by left|right]. split; [done|lia].
  - intros id b. cbn [accounts]. rewrite lookup_insert.
    destruct (decide (next_account_id db = id)) as [_|_]; [|apply Haccounts].
    intros [= <-]. subst a. repeat split; cbn; eauto.
    destruct accountType; auto.
  - eapply Forall_impl; [exact Hrecords|]. intros t (? & ? & Hrow & ? & ? & ?).
    repeat split; try done. cbn. rewrite lookup_insert_is_Some.
    destruct (decide (next_account_id db = Transaction.accountId t)); auto.
Qed.

Lemma store_invariant_run (calls : list Call) : store_invariant (run calls empty_db).
Proof.
  assert (forall db, store_invariant db -> store_invariant (run calls db)) as Hrun.
  { induction calls as [|c calls IH]; intros db Hinv; [done|].
    apply IH. destruct c as [fuel entropy now user accountType|clk user input]; cbn.
    - destruct (createAccount fuel entropy now user accountType db) as [[r db']|] eqn:Hc;
        [|done].
      by eapply store_invariant_createAccount.
    - by apply store_invariant_fundAccount. }
  apply Hrun, store_invariant_empty.
Qed.

Lemma seqZ_Sorted (m : Z) (n : nat) : Sorted Z.le (seqZ m (Z.of_nat n)).
Proof.
  revert m. induction n as [|n IH]; intros m; [constructor|].
  rewrite seqZ_cons by lia.
  replace (Z.pred (Z.of_nat (S n))) with (Z.of_nat n) by lia.
  constructor; [apply IH|].
  destruct n as [|n]; [constructor|].
  rewrite seqZ_cons by lia. constructor. lia.
Qed.

(** X6.  In every database reached from the empty one by calls of
    [createAccount] and [fundAccount], the account numbers of the rows of
    [accounts] are pairwise distinct. *)
Theorem run_account_numbers_distinct (calls : list Call) :
  NoDup (map (fun row => Account.accountNumber (snd row))
             (account_rows (run calls empty_db))).
Proof.
  pose proof (inv_numbers _ (store_invariant_run calls)) as Hnumbers.
  apply (NoDup_fmap_2_strong (fun row : Z * Account.t => Account.accountNumber (snd row))).
  - intros [i a] [j b] Ha Hb Heq. apply account_rows_elem in Ha, Hb. cbn in Heq.
    assert (i = j) as -> by by apply (Hnumbers i j a b).
    congruence.
  - apply (NoDup_fmap_1 fst). rewrite account_rows_fst. apply account_ids_NoDup.
Qed.

(** X7.  In every database reached from the empty one by calls of
    [createAccount] and [fundAccount], the ids in use are consecutive from 1:
    the accounts have the ids 1, ..., n and the k-th transaction recorded has
    id k. *)
Theorem run_rowids_consecutive (calls : list Call) :
  let db := run calls empty_db in
  (account_rows db).*1 = seqZ 1 (Z.of_nat (size (accounts db)))
  /\ map Transaction.id (transactions db) = seqZ 1 (Z.of_nat (length (transactions db))).
Proof.
  intros db. destruct (inv_rowids _ (store_invariant_run calls)) as [Hkeys Hids].
  fold db in Hkeys, Hids. split.
  - rewrite account_rows_fst. apply (sorting.Sorted_unique Z.le).
    + apply account_ids_Sorted.
    + apply seqZ_Sorted.
    + apply NoDup_Permutation; [apply account_ids_NoDup|apply NoDup_seqZ|].
      intros k. rewrite account_ids_elem, Hkeys, elem_of_seqZ. lia.
  - apply list_eq. intros i. rewrite list_lookup_fmap.
    destruct (transactions db !! i) as [t|] eqn:Hi; cbn.
    + rewrite (Hids i t Hi). symmetry. apply lookup_seqZ.
      apply lookup_lt_Some in Hi. lia.
    + symmetry. apply lookup_seqZ_ge. apply lookup_ge_None in Hi. lia.
Qed.

(** X8.  In every database reached from the empty one by calls of
    [createAccount] and [fundAccount], the accounts that [getAccounts] lists
    for a user have pairwise distinct types, each "checking" or "savings": a
    user holds at most two accounts. *)
Theorem run_at_most_two_accounts (calls : list Call) (user : Z) :
  let types := map (fun row => Account.accountType (snd row))
                   (getAccounts user (run calls empty_db)) in
  NoDup types
  /\ Forall (fun t => t = "checking" \/ t = "savings") types
  /\ (length (getAccounts user (run calls empty_db)) <= 2)%nat.
Proof.
  intros types.
  pose proof (inv_types _ (store_invariant_run calls)) as Htypes.
  pose proof (inv_accounts _ (store_invariant_run calls)) as Haccounts.
  assert (NoDup types) as Hnodup.
  { apply (NoDup_fmap_2_strong (fun row : Z * Account.t => Account.accountType (snd row))).
    - intros [i a] [j b] Ha Hb Heq. apply getAccounts_elem in Ha as [Ha Hua].
      apply getAccounts_elem in Hb as [Hb Hub]. cbn in Heq.
      assert (i = j) as -> by (apply (Htypes i j a b); congruence).
      congruence.
    - apply (NoDup_fmap_1 fst), getAccounts_NoDup. }
  assert (Forall (fun t => t = "checking" \/ t = "savings") types) as Hall.
  { apply Forall_fmap, Forall_forall. intros [i a] Ha.
    apply getAccounts_elem in Ha as [Ha _]. cbn.
    by destruct (Haccounts i a Ha) as (_ & ? & _). }
  split; [done|]. split; [done|].
  rewrite <- (length_map (fun row : Z * Account.t => Account.accountType (snd row))).
  fold types.
  apply (submseteq_length types ["checking"; "savings"]).
  apply NoDup_submseteq; [done|]. intros t Ht.
  rewrite Forall_forall in Hall. destruct (Hall t Ht) as [-> | ->]; set_solver.
Qed.

(** X9.  In every database reached from the empty one by calls of
    [createAccount] and [fundAccount], every account is active, of type
    "checking" or "savings", with a creation time and a generated account
    number, and every transaction is a completed deposit on an account of the
    table, described as "Funding from card" or "Funding from bank", with its
    creation and processing times set. *)
Theorem run_rows_well_formed (calls : list Call) :
  let db := run calls empty_db in
  (forall id a, accounts db !! id = Some a -> created_account a)
  /\ Forall (funding_record db) (transactions db).
Proof.
  intros db. split.
  - apply (inv_accounts _ (store_invariant_run calls)).
  - apply (inv_records _ (store_invariant_run calls)).
Qed.

(** * Input validation *)

(** ** The card number check *)

Lemma list_ascii_of_string_app (s1 s2 : string) :
  list_ascii_of_string (s1 +:+ s2) = list_ascii_of_string s1 ++ list_ascii_of_string s2.
Proof.
  induction s1 as [|c s1 IH]; [done|].
  change (String c s1 +:+ s2) with (String c (s1 +:+ s2)). cbn. by f_equal.
Qed.

Lemma sanitize_app (s1 s2 : string) : sanitize (s1 +:+ s2) = sanitize s1 +:+ sanitize s2.
Proof.
  induction s1 as [|c s1 IH]; [done|].
  change (String c s1 +:+ s2) with (String c (s1 +:+ s2)). cbn [sanitize].
  destruct (is_digit c); [|done].
  change (String c (sanitize s1) +:+ sanitize s2)
    with (String c (sanitize s1 +:+ sanitize s2)).
  by f_equal.
Qed.

Lemma foldl_luhn_step (l : list Ascii.ascii) (sum : Z) (shouldDouble : bool) :
  fst (foldl luhn_step (sum, shouldDouble) l) = sum + luhn_weighted shouldDouble l.
Proof.
  revert sum shouldDouble. induction l as [|c l IH]; intros sum shouldDouble; cbn; [lia|].
  rewrite IH. unfold luhn_digit. destruct shouldDouble; cbn; lia.
Qed.

Lemma luhn_weighted_app (l1 l2 : list Ascii.ascii) (shouldDouble : bool) :
  luhn_weighted shouldDouble (l1 ++ l2)
  = luhn_weighted shouldDouble l1
    + luhn_weighted (xorb (Nat.odd (length l1)) shouldDouble) l2.
Proof.
  revert shouldDouble. induction l1 as [|c l1 IH]; intros shouldDouble.
  - cbn. by destruct shouldDouble.
  - cbn [app luhn_weighted length]. rewrite IH, Nat.odd_succ, <- Nat.negb_odd.
    replace (xorb (Nat.odd (length l1)) (negb shouldDouble))
      with (xorb (negb (Nat.odd (length l1))) shouldDouble)
      by by destruct (Nat.odd (length l1)), shouldDouble.
    lia.
Qed.

(** The sum of a number with a digit between two parts: the digit counts
    double when an odd number of digits follow it. *)
Lemma luhn_sum_digit_between (s1 s2 : string) :
  exists rest : Z,
    forall c, is_digit c = true ->
      luhn_sum (sanitize (s1 +:+ String c s2))
      = rest + luhn_digit (Nat.odd (length (list_ascii_of_string (sanitize s2)))) c.
Proof.
  exists (luhn_weighted false (reverse (list_ascii_of_string (sanitize s2)))
          + luhn_weighted
              (negb (Nat.odd (length (list_ascii_of_string (sanitize s2)))))
              (reverse (list_ascii_of_string (sanitize s1)))).
  intros c Hc. unfold luhn_sum.
  rewrite sanitize_app. cbn [sanitize]. rewrite Hc.
  rewrite list_ascii_of_string_app. cbn [list_ascii_of_string].
  rewrite reverse_app, reverse_cons, <- app_assoc. cbn [app].
  rewrite foldl_luhn_step, luhn_weighted_app. cbn [luhn_weighted].
  rewrite length_reverse, xorb_false_r. lia.
Qed.

Lemma parseInt_digit_range (c : Ascii.ascii) : is_digit c = true -> 0 <= parseInt c <= 9.
Proof.
  unfold is_digit, parseInt. cbn zeta. intros Hc.
  apply andb_true_iff in Hc as [Hlo Hhi].
  apply N.leb_le in Hlo, Hhi. lia.
Qed.

Lemma parseInt_inj (c c' : Ascii.ascii) : parseInt c = parseInt c' -> c = c'.
Proof.
  unfold parseInt. intros Heq.
  rewrite <- (Ascii.ascii_N_embedding c), <- (Ascii.ascii_N_embedding c').
  f_equal. lia.
Qed.

Lemma luhn_digit_range (shouldDouble : bool) (c : Ascii.ascii) :
  is_digit c = true -> 0 <= luhn_digit shouldDouble c <= 9.
Proof.
  intros Hc. apply parseInt_digit_range in Hc. unfold luhn_digit.
  destruct shouldDouble; [|done].
  destruct (Z.gtb_spec (parseInt c * 2) 9); lia.
Qed.

Lemma luhn_digit_inj (shouldDouble : bool) (c c' : Ascii.ascii) :
  is_digit c = true -> is_digit c' = true ->
  luhn_digit shouldDouble c = luhn_digit shouldDouble c' -> c = c'.
Proof.
  intros Hc Hc' Heq. apply parseInt_inj.
  apply parseInt_digit_range in Hc, Hc'. unfold luhn_digit in Heq.
  destruct shouldDouble; [|done].
  destruct (Z.gtb_spec (parseInt c * 2) 9), (Z.gtb_spec (parseInt c' * 2) 9); lia.
Qed.

(** X10.  The card number check sees the digits only: a character that is not
    a digit (a space, a dash, a letter), wherever it stands in the account
    number, does not change the verdict. *)
Theorem luhn_ignores_non_digits (s1 s2 : string) (c : Ascii.ascii) :
  is_digit c = false ->
  luhn_valid (s1 +:+ String c s2) = luhn_valid (s1 +:+ s2).
Proof.
  intros Hc. unfold luhn_valid. rewrite !sanitize_app. cbn [sanitize]. by rewrite Hc.
Qed.

Lemma luhn_ignores_non_digits_witness :
  luhn_valid ("4111" +:+ String " "%char "111111111111")
  = luhn_valid ("4111" +:+ "111111111111").
Proof. apply (luhn_ignores_non_digits "4111" "111111111111" " "%char). reflexivity. Defined.

(** X11.  The card number check detects every error in one digit: if an
    account number passes, the number obtained by replacing one of its digits
    by a different digit does not. *)
Theorem luhn_detects_one_wrong_digit (s1 s2 : string) (c c' : Ascii.ascii) :
  is_digit c = true -> is_digit c' = true -> c <> c' ->
  luhn_valid (s1 +:+ String c s2) = true ->
  luhn_valid (s1 +:+ String c' s2) = false.
Proof.
  intros Hc Hc' Hne Hvalid.
  destruct (luhn_sum_digit_between s1 s2) as (rest & Hsum).
  set (shouldDouble := Nat.odd (length (list_ascii_of_string (sanitize s2)))) in Hsum.
  unfold luhn_valid in *. rewrite (Hsum c Hc) in Hvalid. rewrite (Hsum c' Hc').
  apply Z.eqb_eq in Hvalid. apply Z.eqb_neq. intros Hvalid'.
  apply Hne, (luhn_digit_inj shouldDouble); [done..|].
  pose proof (luhn_digit_range shouldDouble c Hc).
  pose proof (luhn_digit_range shouldDouble c' Hc').
  Z.div_mod_to_equations. lia.
Qed.

Lemma luhn_detects_one_wrong_digit_witness :
  luhn_valid ("411111111111111" +:+ String "2"%char "") = false.
Proof.
  apply (luhn_detects_one_wrong_digit "411111111111111" "" "1"%char "2"%char).
  - reflexivity.
  - reflexivity.
  - discriminate.
  - reflexivity.
Defined.

(** X12.  Whatever the leading part of an account number, exactly one of the
    ten digits, put at its end, makes it pass the card number check. *)
Theorem luhn_unique_check_digit (s : string) :
  exists c : Ascii.ascii,
    is_digit c = true
    /\ luhn_valid (s +:+ String c "") = true
    /\ forall c', is_digit c' = true -> luhn_valid (s +:+ String c' "") = true -> c' = c.
Proof.
  destruct (luhn_sum_digit_between s "") as (rest & Hsum). cbn in Hsum.
  set (v := (10 - rest mod 10) mod 10).
  assert (0 <= v <= 9) as Hv by (unfold v; Z.div_mod_to_equations; lia).
  set (c := Ascii.ascii_of_N (Z.to_N (48 + v))).
  assert (Ascii.N_of_ascii c = Z.to_N (48 + v)) as HNc
    by (unfold c; apply Ascii.N_ascii_embedding; lia).
  assert (is_digit c = true) as Hc.
  { unfold is_digit. cbn zeta. rewrite HNc. apply andb_true_iff.
    split; apply N.leb_le; lia. }
  assert (parseInt c = v) as Hpc by (unfold parseInt; rewrite HNc; lia).
  exists c. split; [done|]. split.
  - unfold luhn_valid. rewrite (Hsum c Hc). unfold luhn_digit. rewrite Hpc.
    apply Z.eqb_eq. unfold v. Z.div_mod_to_equations. lia.
  - intros c' Hc' Hvalid. unfold luhn_valid in Hvalid. rewrite (Hsum c' Hc') in Hvalid.
    apply Z.eqb_eq in Hvalid. unfold luhn_digit in Hvalid.
    apply parseInt_inj. rewrite Hpc.
    pose proof (parseInt_digit_range c' Hc'). unfold v. Z.div_mod_to_equations. lia.
Qed.

(** X13.  An account number without any digit, the empty string for one,
    passes the card number check: a card funding source with such a number
    raises no issue. *)
Theorem digitless_card_number_accepted
    (accountNumber : string) (routingNumber : option string) :
  sanitize accountNumber = "" ->
  fundingSource_issues {| FundingSource.type := card;
                          FundingSource.accountNumber := accountNumber;
                          FundingSource.routingNumber := routingNumber |} = [].
Proof.
  intros Hnone. unfold fundingSource_issues, luhn_valid. cbn. by rewrite Hnone.
Qed.

Lemma digitless_card_number_accepted_witness :
  fundingSource_issues {| FundingSource.type := card;
                          FundingSource.accountNumber := "not a number";
                          FundingSource.routingNumber := None |} = [].
Proof. apply (digitless_card_number_accepted "not a number" None). reflexivity. Defined.

(** ** The age check *)

(** X14.  A date of birth is accepted exactly when it is a date and the 18th
    birthday is today or earlier, dates compared by year, then month, then
    day. *)
Theorem dateOfBirth_refine_eighteen (today : JSDate) (date : option JSDate) :
  dateOfBirth_refine today date = true <->
  exists d, date = Some d /\ eighteen_years_before d today.
Proof.
  destruct date as [d|]; cbn; [|split; [done|by intros (d & ? & _)]].
  unfold eighteen_years_before. split.
  - intros Hage. exists d. split; [done|].
    destruct (Z.ltb_spec (getMonth today - getMonth d) 0),
             (Z.eqb_spec (getMonth today - getMonth d) 0),
             (Z.ltb_spec (getDate today) (getDate d)); cbn in Hage;
      apply Z.geb_le in Hage; lia.
  - intros (d' & [= <-] & Hd).
    destruct (Z.ltb_spec (getMonth today - getMonth d) 0),
             (Z.eqb_spec (getMonth today - getMonth d) 0),
             (Z.ltb_spec (getDate today) (getDate d)); cbn;
      apply Z.geb_le; lia.
Qed.

(** ** Account numbers *)

Lemma pretty_N_char_digit (x : N) : is_digit (pretty_N_char x) = true.
Proof. unfold pretty_N_char. by repeat case_match. Qed.

Lemma string_app_assoc (s1 s2 s3 : string) : (s1 +:+ s2) +:+ s3 = s1 +:+ (s2 +:+ s3).
Proof.
  induction s1 as [|c s1 IH]; [done|].
  change ((String c s1 +:+ s2) +:+ s3) with (String c ((s1 +:+ s2) +:+ s3)).
  change (String c s1 +:+ (s2 +:+ s3)) with (String c (s1 +:+ (s2 +:+ s3))).
  by rewrite IH.
Qed.

Lemma string_app_nil_r (s : string) : s +:+ "" = s.
Proof.
  induction s as [|c s IH]; [done|].
  change (String c s +:+ "") with (String c (s +:+ "")). by rewrite IH.
Qed.

Lemma string_length_app (s1 s2 : string) :
  String.length (s1 +:+ s2) = (String.length s1 + String.length s2)%nat.
Proof.
  induction s1 as [|c s1 IH]; [done|].
  change (String c s1 +:+ s2) with (String c (s1 +:+ s2)). cbn. by rewrite IH.
Qed.

Lemma pretty_N_go_digits (k : nat) (x : N) (s : string) :
  (10 ^ N.of_nat k <= x < 10 ^ N.of_nat (S k))%N ->
  exists digits : string,
    pretty_N_go x s = digits +:+ s
    /\ String.length digits = S k
    /\ sanitize digits = digits.
Proof.
  revert x s. induction k as [|k IH]; intros x s Hx.
  - rewrite pretty_N_go_step by (cbn in Hx; lia).
    replace (x `div` 10)%N with 0%N
      by (symmetry; apply N.div_small; cbn in Hx; lia).
    rewrite pretty_N_go_0. exists (String (pretty_N_char (x `mod` 10)) "").
    split; [done|]. split; [done|]. cbn. by rewrite pretty_N_char_digit.
  - assert (0 < x)%N as Hpos.
    { pose proof (N.pow_nonzero 10 (N.of_nat (S k))). lia. }
    rewrite pretty_N_go_step by done.
    destruct (IH (x `div` 10)%N (String (pretty_N_char (x `mod` 10)) s))
      as (digits & -> & Hlen & Hdigits).
    { rewrite !Nat2N.inj_succ, !N.pow_succ_r' in *.
      split.
      - apply N.div_le_lower_bound; lia.
      - apply N.Div0.div_lt_upper_bound; lia. }
    exists (digits +:+ String (pretty_N_char (x `mod` 10)) "").
    split; [|split].
    + by rewrite string_app_assoc.
    + rewrite string_length_app, Hlen. cbn. lia.
    + rewrite sanitize_app, Hdigits. cbn. by rewrite pretty_N_char_digit.
Qed.

(** X15.  Every account number that [generateAccountNumber] produces is a
    string of exactly ten characters, all of them decimal digits. *)
Theorem generateAccountNumber_ten_digits (entropy : Z) :
  String.length (generateAccountNumber entropy) = 10%nat
  /\ sanitize (generateAccountNumber entropy) = generateAccountNumber entropy.
Proof.
  unfold generateAccountNumber, randomInt.
  pose proof (Z.mod_pos_bound entropy (9999999999 - 1000000000) eq_refl) as Hmod.
  destruct (1000000000 + entropy `mod` (9999999999 - 1000000000)) as [|p|p] eqn:Hp;
    [lia| |lia].
  unfold pretty, pretty_Z, pretty, pretty_positive, pretty, pretty_N.
  rewrite decide_False by done.
  destruct (pretty_N_go_digits 9 (N.pos p) "") as (digits & -> & Hlen & Hdigits).
  { change (10 ^ N.of_nat 9)%N with 1000000000%N.
    change (10 ^ N.of_nat 10)%N with 10000000000%N. lia. }
  by rewrite string_app_nil_r.
Qed.
